(** * Collective dynamics on curves in R^3: a shallow embedding

    Embedding of [src/geometry/curves.py] and [src/dynamics/curve_dynamics.py].

    Conventions.
    - A Python [float] / NumPy [float64] is a real number ([R]); rounding,
      infinities and NaN are outside this model, so every equation below is
      an equation of exact real arithmetic.  Where a statement turns on
      rounding, the function is also given over binary64 ([PrimFloat]).
    - A NumPy array of three components is the record [V3]; a one-dimensional
      array of unknown length is a [list R].
    - A Python call that may raise returns a [result]; the constructors of
      [error] name the exceptions of the two modules and of NumPy.
    - [scipy.integrate.solve_ivp] is a library outside the repository: the
      integrators take it as a parameter. *)

From Stdlib Require Import Reals Lra Lia List ZArith Bool RNsatz.
From Stdlib Require Floats.PrimFloat.
Import ListNotations.
Open Scope R_scope.

(* ================================================================== *)
(** * Errors and fallible computations *)
(* ================================================================== *)

Inductive error : Type :=
| DegenerateGeometry            (* ValueError: speed too small, cannot compute tangent *)
| UnsupportedOrder (order : Z)  (* ValueError: derivative order not supported *)
| NotImplementedError           (* CurveDynamics.equations_of_motion of the base class *)
| ShapeError                    (* NumPy ValueError: operands cannot be broadcast / bad count *)
| IndexError                    (* index out of bounds *)
| AttributeError                (* attribute missing: [.T] of a Python list *)
| SolverDivergence.             (* named by the specification; raised nowhere in the code *)

Inductive result (A : Type) : Type :=
| Ok (a : A)
| Err (e : error).
Arguments Ok {A} a.
Arguments Err {A} e.

Definition bind {A B : Type} (m : result A) (k : A -> result B) : result B :=
  match m with
  | Ok a => k a
  | Err e => Err e
  end.

Notation "x <- m ;; k" := (bind m (fun x => k))
  (at level 61, m at next level, right associativity).

Definition is_ok {A : Type} (m : result A) : Prop :=
  match m with Ok _ => True | Err _ => False end.

(** Traversal of a list with a fallible function (a Python loop whose body
    may raise). *)
Fixpoint mapM {A B : Type} (f : A -> result B) (l : list A) : result (list B) :=
  match l with
  | [] => Ok []
  | a :: l' => b <- f a ;; bs <- mapM f l' ;; Ok (b :: bs)
  end.

(* ================================================================== *)
(** * Vectors of R^3 (NumPy arrays of shape (3,)) *)
(* ================================================================== *)

Record V3 : Type := mkV3 { vx : R; vy : R; vz : R }.

Definition vsub (a b : V3) : V3 := mkV3 (vx a - vx b) (vy a - vy b) (vz a - vz b).
(** [a / s] *)
Definition vdivs (a : V3) (s : R) : V3 := mkV3 (vx a / s) (vy a / s) (vz a / s).
(** [np.dot] *)
Definition dot (a b : V3) : R := vx a * vx b + vy a * vy b + vz a * vz b.
(** [np.cross] *)
Definition cross (a b : V3) : V3 :=
  mkV3 (vy a * vz b - vz a * vy b)
       (vz a * vx b - vx a * vz b)
       (vx a * vy b - vy a * vx b).
(** [np.linalg.norm] *)
Definition norm (a : V3) : R := sqrt (dot a a).


(** The threshold [1e-10] of every degeneracy test. *)
Definition eps : R := 1e-10.

(* ================================================================== *)
(** * One-dimensional arrays: [np.linspace], [np.diff], [np.trapz] *)
(* ================================================================== *)

Definition rsum (l : list R) : R := fold_right Rplus 0 l.

(** [np.mean]. *)
Definition mean (l : list R) : R := rsum l / INR (length l).

(** [x[1:] - x[:-1]]. *)
Fixpoint diff (x : list R) : list R :=
  match x with
  | a :: ((b :: _) as tl) => (b - a) :: diff tl
  | _ => []
  end.

(** [y[1:] + y[:-1]]. *)
Fixpoint pairsum (y : list R) : list R :=
  match y with
  | a :: ((b :: _) as tl) => (b + a) :: pairsum tl
  | _ => []
  end.

Fixpoint zipWith {A B C : Type} (f : A -> B -> C) (l1 : list A) (l2 : list B) : list C :=
  match l1, l2 with
  | a :: l1', b :: l2' => f a b :: zipWith f l1' l2'
  | _, _ => []
  end.

(** [np.trapz(y, x)] for two arrays of the same length:
    [(d * (y[1:] + y[:-1]) / 2.0).sum()] with [d = diff(x)]. *)
Definition trapz (y x : list R) : R :=
  rsum (zipWith (fun d s => d * s / 2) (diff x) (pairsum y)).

(** Overwrite the last entry ([y[-1] = stop]). *)
Fixpoint set_last (l : list R) (v : R) : list R :=
  match l with
  | [] => []
  | [_] => [v]
  | a :: l' => a :: set_last l' v
  end.

(** [np.linspace(start, stop, num)] with the default [endpoint=True]:
    a negative count raises, [num] samples [start + i * step] otherwise,
    the last one overwritten by [stop] when there are at least two. *)
Definition linspace (start stop : R) (num : Z) : result (list R) :=
  if (num <? 0)%Z then Err ShapeError
  else
    let n := Z.to_nat num in
    let div := (n - 1)%nat in
    let delta := stop - start in
    let y :=
      if (0 <? div)%nat
      then map (fun i => INR i * (delta / INR div) + start) (seq 0 n)
      else map (fun i => INR i * delta + start) (seq 0 n) in
    Ok (if (1 <? n)%nat then set_last y stop else y).

(* ================================================================== *)
(** * geometry/curves.py *)
(* ================================================================== *)


Record ParametricCurve : Type := mkParametricCurve {
  gamma : R -> V3;
  _gamma_prime : option (R -> V3);
  _gamma_double_prime : option (R -> V3);
  _gamma_triple_prime : option (R -> V3);
  dt : R
}.

(** The default step of numerical differentiation. *)
Definition default_dt : R := 1e-5.

Module Curve.

(** [derivative(t, 1)]. *)
Definition derivative1 (c : ParametricCurve) (t : R) : V3 :=
  match _gamma_prime c with
  | Some f => f t
  | None => vdivs (vsub (gamma c (t + dt c)) (gamma c (t - dt c))) (2 * dt c)
  end.

(** [derivative(t, 2)]. *)
Definition derivative2 (c : ParametricCurve) (t : R) : V3 :=
  match _gamma_double_prime c with
  | Some f => f t
  | None => vdivs (vsub (derivative1 c (t + dt c)) (derivative1 c (t - dt c))) (2 * dt c)
  end.

(** [derivative(t, 3)]. *)
Definition derivative3 (c : ParametricCurve) (t : R) : V3 :=
  match _gamma_triple_prime c with
  | Some f => f t
  | None => vdivs (vsub (derivative2 c (t + dt c)) (derivative2 c (t - dt c))) (2 * dt c)
  end.

Definition derivative (c : ParametricCurve) (t : R) (order : Z) : result V3 :=
  if (order =? 1)%Z then Ok (derivative1 c t)
  else if (order =? 2)%Z then Ok (derivative2 c t)
  else if (order =? 3)%Z then Ok (derivative3 c t)
  else Err (UnsupportedOrder order).

Definition speed (c : ParametricCurve) (t : R) : result R :=
  gamma_prime <- derivative c t 1 ;;
  Ok (norm gamma_prime).

Definition tangent (c : ParametricCurve) (t : R) : result V3 :=
  gamma_prime <- derivative c t 1 ;;
  let speed := norm gamma_prime in
  if Rlt_dec speed eps then Err DegenerateGeometry
  else Ok (vdivs gamma_prime speed).

Definition curvature (c : ParametricCurve) (t : R) : result R :=
  gamma_prime <- derivative c t 1 ;;
  gamma_double_prime <- derivative c t 2 ;;
  let cross_product := cross gamma_prime gamma_double_prime in
  let numerator := norm cross_product in
  let denominator := norm gamma_prime ^ 3 in
  if Rlt_dec denominator eps then Ok 0
  else Ok (numerator / denominator).



Definition torsion (c : ParametricCurve) (t : R) : result R :=
  gamma_prime <- derivative c t 1 ;;
  gamma_double_prime <- derivative c t 2 ;;
  gamma_triple_prime <- derivative c t 3 ;;
  let cross_product := cross gamma_prime gamma_double_prime in
  let numerator := dot cross_product gamma_triple_prime in
  let denominator := norm cross_product ^ 2 in
  if Rlt_dec denominator eps then Ok 0
  else Ok (numerator / denominator).


Definition arc_length (c : ParametricCurve) (t0 t1 : R) (n_points : Z) : result R :=
  t_values <- linspace t0 t1 n_points ;;
  speeds <- mapM (speed c) t_values ;;
  Ok (trapz speeds t_values).

Definition evaluate_array (c : ParametricCurve) (t_array : list R) : list V3 :=
  map (gamma c) t_array.

End Curve.

(** [helix(radius, pitch)]: the point map and its three analytic derivatives. *)
Definition helix (radius pitch : R) : ParametricCurve :=
  mkParametricCurve
    (fun t => mkV3 (radius * cos t) (radius * sin t) (pitch * t / (2 * PI)))
    (Some (fun t => mkV3 (- radius * sin t) (radius * cos t) (pitch / (2 * PI))))
    (Some (fun t => mkV3 (- radius * cos t) (- radius * sin t) 0))
    (Some (fun t => mkV3 (radius * sin t) (- radius * cos t) 0))
    default_dt.


(** [viviani_curve(radius)]: no analytic derivative, differentiated numerically. *)
Definition viviani_curve (radius : R) : ParametricCurve :=
  mkParametricCurve
    (fun t => mkV3 (radius * (1 + cos t)) (radius * sin t) (2 * radius * sin (t / 2)))
    None None None default_dt.

(* ================================================================== *)
(** * NumPy array helpers used by the dynamics *)
(* ================================================================== *)

(** [a[i]] *)
Definition get (a : list R) (i : nat) : result R :=
  match nth_error a i with
  | Some x => Ok x
  | None => Err IndexError
  end.

(** [a[i] = v] for an index in range. *)
Fixpoint list_set (a : list R) (i : nat) (v : R) : list R :=
  match a, i with
  | [], _ => []
  | _ :: a', O => v :: a'
  | x :: a', S i' => x :: list_set a' i' v
  end.

(** Broadcasting of a one-dimensional operand against a target of length
    [n]: the same length, or length one repeated; anything else raises. *)
Definition broadcast_to (n : nat) (a : list R) : result (list R) :=
  if (length a =? n)%nat then Ok a
  else match a with
       | [x] => Ok (repeat x n)
       | _ => Err ShapeError
       end.

(** [a += b] *)
Definition iadd (a b : list R) : result (list R) :=
  b' <- broadcast_to (length a) b ;;
  Ok (zipWith Rplus a b').

(** [a -= b] *)
Definition isub (a b : list R) : result (list R) :=
  b' <- broadcast_to (length a) b ;;
  Ok (zipWith Rminus a b').

(** [np.zeros(n)] *)
Definition zeros (n : nat) : list R := repeat 0 n.

(** [np.sign] *)
Definition sign (x : R) : R :=
  if Rlt_dec x 0 then -1 else if Rlt_dec 0 x then 1 else 0.

(** [a[i, j]] for a two-dimensional array stored as its list of rows. *)
Definition get2 (a : list (list R)) (i j : nat) : result R :=
  match nth_error a i with
  | Some row => get row j
  | None => Err IndexError
  end.

(** Column [k] of a two-dimensional array stored as its list of rows. *)
Definition column (k : nat) (rows : list (list R)) : list R :=
  map (fun row => nth k row 0) rows.

(** [rows.T] for an array of [ncols] columns. *)
Definition transpose (ncols : nat) (rows : list (list R)) : list (list R) :=
  map (fun k => column k rows) (seq 0 ncols).

(* ================================================================== *)
(** * The ODE solver, a parameter *)
(* ================================================================== *)

Inductive ode_method : Type := RK45 | RK23 | DOP853 | Radau | BDF | LSODA.

(** The samples [y] of a result.  With [t_eval] given, [solve_ivp] stacks
    the collected samples into an array of shape [(len(y0), len(t))], here
    its list of rows; when no sample was collected it leaves [y] the empty
    Python list it started from. *)
Inductive ode_samples : Type :=
| YList
| YArray (rows : list (list R)).

(** The object [solve_ivp] returns: sample times [t], the samples [y], and
    the termination status ([0] the end of the span was reached, [-1] an
    integration step failed, [1] a termination event). *)
Record OdeResult : Type := mkOdeResult {
  sol_t : list R;
  sol_y : ode_samples;
  sol_status : Z;
  sol_success : bool
}.

Definition ode_rhs : Type := R -> list R -> result (list R).

(** [solve_ivp(fun, t_span, y0, method=..., t_eval=..., dense_output=True)] *)
Definition ivp_solver : Type :=
  ode_rhs -> R * R -> list R -> ode_method -> list R -> result OdeResult.

(* ================================================================== *)
(** * dynamics/curve_dynamics.py: one particle *)
(* ================================================================== *)

Record ParticleState : Type := mkParticleState { position : R; velocity : R }.

(** The interface of [CurveDynamics] and its subclasses: the curve, and the
    overridable [equations_of_motion(t, position, velocity)]. *)
Class CurveDynamics (D : Type) : Type := {
  curve : D -> ParametricCurve;
  equations_of_motion : D -> R -> R -> R -> result (R * R)
}.

(** The base class itself. *)
Record BaseDynamics : Type := mkBaseDynamics { base_curve : ParametricCurve }.

#[export] Instance BaseDynamics_CurveDynamics : CurveDynamics BaseDynamics := {
  curve := base_curve;
  equations_of_motion := fun _ _ _ _ => Err NotImplementedError
}.

Record FreeParticleDynamics : Type := mkFreeParticleDynamics { fp_curve : ParametricCurve }.

#[export] Instance FreeParticleDynamics_CurveDynamics : CurveDynamics FreeParticleDynamics := {
  curve := fp_curve;
  equations_of_motion := fun _ _ _ velocity => Ok (velocity, 0)
}.

Record ConstantSpeedDynamics : Type := mkConstantSpeedDynamics {
  cs_curve : ParametricCurve;
  cs_speed : R
}.

Module ConstantSpeed.

Definition equations_of_motion (self : ConstantSpeedDynamics) (t position velocity : R)
  : result (R * R) :=
  gamma_prime <- Curve.derivative (cs_curve self) position 1 ;;
  gamma_double_prime <- Curve.derivative (cs_curve self) position 2 ;;
  let norm_gamma_prime := norm gamma_prime in
  let acceleration :=
    if Rlt_dec norm_gamma_prime eps then 0
    else
      let dot_product := dot gamma_prime gamma_double_prime in
      - (dot_product / (norm_gamma_prime ^ 2)) * velocity ^ 2 in
  Ok (velocity, acceleration).

End ConstantSpeed.

#[export] Instance ConstantSpeedDynamics_CurveDynamics : CurveDynamics ConstantSpeedDynamics := {
  curve := cs_curve;
  equations_of_motion := ConstantSpeed.equations_of_motion
}.

Record CurvatureDrivenDynamics : Type := mkCurvatureDrivenDynamics {
  cd_curve : ParametricCurve;
  force_function : R -> R;
  cd_damping : R
}.

Module CurvatureDriven.

Definition equations_of_motion (self : CurvatureDrivenDynamics) (t position velocity : R)
  : result (R * R) :=
  kappa <- Curve.curvature (cd_curve self) position ;;
  let force := force_function self kappa in
  let acceleration := force - cd_damping self * velocity in
  Ok (velocity, acceleration).

End CurvatureDriven.

#[export] Instance CurvatureDrivenDynamics_CurveDynamics : CurveDynamics CurvatureDrivenDynamics := {
  curve := cd_curve;
  equations_of_motion := CurvatureDriven.equations_of_motion
}.

Module Single.
Section Integrate.

Variable solve_ivp : ivp_solver.
Context {D : Type} `{CurveDynamics D}.

(** The closure [system(time, state)] of [CurveDynamics.integrate]. *)
Definition system (self : D) (time : R) (state : list R) : result (list R) :=
match state with
| [pos; vel] =>
    let dpos_dt := vel in
    eom <- equations_of_motion self time pos vel ;;
    let dvel_dt := snd eom in
    Ok [dpos_dt; dvel_dt]
| _ => Err ShapeError
end.

Definition integrate (self : D) (initial_position initial_velocity : R)
  (t_span : R * R) (n_points : Z) (method : ode_method)
: result (list R * list R * list R) :=
let y0 := [initial_position; initial_velocity] in
t_eval <- linspace (fst t_span) (snd t_span) n_points ;;
solution <- solve_ivp (system self) t_span y0 method t_eval ;;
let times := sol_t solution in
match sol_y solution with
| YArray (positions :: velocities :: _) => Ok (times, positions, velocities)
| _ => Err IndexError
end.

Definition spatial_trajectory (self : D) (initial_position initial_velocity : R)
  (t_span : R * R) (n_points : Z)
: result (list R * list V3) :=
r <- integrate self initial_position initial_velocity t_span n_points RK45 ;;
let '(times, positions, velocities) := r in
let trajectory := map (gamma (curve self)) positions in
Ok (times, trajectory).

End Integrate.
End Single.

(* ================================================================== *)
(** * dynamics/curve_dynamics.py: interaction functions *)
(* ================================================================== *)

Definition interaction : Type := list R -> list R -> result (list R).

(** The accumulation [for j in range(n): if i != j: acc += term(i, j)]
    into the entry [forces[i]], which no other iteration of the outer loop
    reads or writes. *)
Definition pair_loop (n i : nat) (term : nat -> nat -> R) (init : R) : R :=
  fold_left (fun acc j => if (i =? j)%nat then acc else acc + term i j) (seq 0 n) init.

Definition kuramoto_interaction (coupling : R) (natural_frequencies : option (list R))
  : interaction :=
  fun positions velocities =>
    let n := length positions in
    let forces := zeros n in
    forces <- match natural_frequencies with
              | Some w => iadd forces w
              | None => Ok forces
              end ;;
    Ok (map (fun i =>
               pair_loop n i
                 (fun i j => (coupling / INR n) * sin (nth j positions 0 - nth i positions 0))
                 (nth i forces 0))
            (seq 0 n)).

(** [range_param = None] is the default [np.inf]. *)
Definition attractive_interaction (coupling : R) (range_param : option R) : interaction :=
  fun positions velocities =>
    let n := length positions in
    let forces := zeros n in
    Ok (map (fun i =>
               pair_loop n i
                 (fun i j =>
                    let diff := nth j positions 0 - nth i positions 0 in
                    let distance := Rabs diff in
                    let in_range := match range_param with
                                    | None => true
                                    | Some r => if Rlt_dec distance r then true else false
                                    end in
                    if in_range then coupling * sign diff * distance else 0)
                 (nth i forces 0))
            (seq 0 n)).

Definition repulsive_interaction (coupling cutoff : R) : interaction :=
  fun positions velocities =>
    let n := length positions in
    let forces := zeros n in
    Ok (map (fun i =>
               pair_loop n i
                 (fun i j =>
                    let diff := nth j positions 0 - nth i positions 0 in
                    let distance := Rmax (Rabs diff) cutoff in
                    - (coupling * sign diff / (distance ^ 2)))
                 (nth i forces 0))
            (seq 0 n)).

(** [randn i] is the value the [i]-th particle's call of [np.random.randn()]
    returns during the evaluation; no call is made unless [noise > 0]. *)
Definition vicsek_like_interaction (coupling noise : R) (randn : nat -> R) : interaction :=
  fun positions velocities =>
    let n := length positions in
    let avg_velocity := mean velocities in
    mapM (fun i =>
            v <- get velocities i ;;
            let f := coupling * (avg_velocity - v) in
            Ok (if Rlt_dec 0 noise then f + noise * randn i else f))
         (seq 0 n).

(* ================================================================== *)
(** * dynamics/curve_dynamics.py: many particles *)
(* ================================================================== *)

Record MultiParticleSystem : Type := mkMultiParticleSystem {
  mp_curve : ParametricCurve;
  n_particles : nat;
  interaction_function : option interaction
}.

Module Multi.

(** One iteration of
    [for i in range(n): forces[i] += external_force(time, positions[i], velocities[i])]. *)
Definition external_step (external_force : R -> R -> R -> R) (time : R)
    (positions velocities : list R) (acc : result (list R)) (i : nat)
  : result (list R) :=
  forces <- acc ;;
  p <- get positions i ;;
  v <- get velocities i ;;
  f <- get forces i ;;
  Ok (list_set forces i (f + external_force time p v)).

Definition equations_of_motion (self : MultiParticleSystem) (time : R) (state : list R)
    (damping : R) (external_force : option (R -> R -> R -> R))
  : result (list R) :=
  let n := n_particles self in
  let positions := firstn n state in
  let velocities := skipn n state in
  d_positions <- broadcast_to n velocities ;;
  let forces := zeros n in
  forces <- match interaction_function self with
            | Some f =>
                interaction_forces <- f positions velocities ;;
                iadd forces interaction_forces
            | None => Ok forces
            end ;;
  forces <- match external_force with
            | Some ef =>
                fold_left (external_step ef time positions velocities) (seq 0 n) (Ok forces)
            | None => Ok forces
            end ;;
  forces <- isub forces (map (Rmult damping) velocities) ;;
  Ok (d_positions ++ forces).

Section Integrate.

Variable solve_ivp : ivp_solver.

Definition integrate (self : MultiParticleSystem)
    (initial_positions initial_velocities : list R)
    (t_span : R * R) (n_points : Z) (method : ode_method)
    (damping : R) (external_force : option (R -> R -> R -> R))
  : result (list R * list (list R) * list (list R)) :=
  let y0 := initial_positions ++ initial_velocities in
  t_eval <- linspace (fst t_span) (snd t_span) n_points ;;
  solution <- solve_ivp
                (fun t y => equations_of_motion self t y damping external_force)
                t_span y0 method t_eval ;;
  let times := sol_t solution in
  let n := n_particles self in
  match sol_y solution with
  | YList => Err AttributeError
  | YArray rows =>
      let positions := transpose (length times) (firstn n rows) in
      let velocities := transpose (length times) (skipn n rows) in
      Ok (times, positions, velocities)
  end.

Definition spatial_trajectories (self : MultiParticleSystem)
    (initial_positions initial_velocities : list R)
    (t_span : R * R) (n_points : Z)
    (damping : R) (external_force : option (R -> R -> R -> R))
  : result (list R * list (list V3)) :=
  r <- integrate self initial_positions initial_velocities t_span n_points RK45
         damping external_force ;;
  let '(times, positions, velocities) := r in
  trajectories <-
    mapM (fun i =>
            mapM (fun j => p <- get2 positions i j ;; Ok (gamma (mp_curve self) p))
                 (seq 0 (n_particles self)))
         (seq 0 (Z.to_nat n_points)) ;;
  Ok (times, trajectories).

End Integrate.

End Multi.

(* ================================================================== *)
(** * The fallback rule of [normal] as the specification words it *)
(* ================================================================== *)




(* ================================================================== *)
(** * Concrete inputs used by the examples below *)
(* ================================================================== *)



(** A curve with a stationary point at every parameter: the analytic first
    derivative is the zero vector. *)
Definition stationary : ParametricCurve :=
  mkParametricCurve
    (fun _ => mkV3 1 2 3)
    (Some (fun _ => mkV3 0 0 0))
    None None default_dt.

(* ================================================================== *)
(** * Vocabulary of the statements about the many-particle system *)
(* ================================================================== *)

(** The interaction forces of a system, "zero when no interaction function
    is set". *)
Definition interaction_forces (self : MultiParticleSystem) (positions velocities : list R)
  : result (list R) :=
  match interaction_function self with
  | Some f => f positions velocities
  | None => Ok (zeros (n_particles self))
  end.

(** The external force on one particle, "zero when none is supplied". *)
Definition external_at (external_force : option (R -> R -> R -> R)) (time p v : R) : R :=
  match external_force with
  | Some ef => ef time p v
  | None => 0
  end.

(* ================================================================== *)
(** * A run of the library solver that stalls, and inputs that cause one *)
(* ================================================================== *)

(** A user subclass of [CurveDynamics], which is written to be subclassed:
    its [equations_of_motion] returns [(velocity, velocity ** 2)].  From a
    velocity [v0 > 0] the solution blows up at time [1 / v0]. *)
Record RunawayDynamics : Type := mkRunawayDynamics { rw_curve : ParametricCurve }.

#[export] Instance RunawayDynamics_CurveDynamics : CurveDynamics RunawayDynamics := {
  curve := rw_curve;
  equations_of_motion := fun _ _ _ velocity => Ok (velocity, velocity ^ 2)
}.

(** The external force [lambda t, p, v: v ** 2], with the same blow-up. *)
Definition runaway_force : R -> R -> R -> R := fun _ _ v => v ^ 2.

(** Two particles on a helix without interaction. *)
Definition free_gas : MultiParticleSystem :=
  mkMultiParticleSystem (helix 1 1) 2 None.

(** What [solve_ivp] returns when the solution blows up after the first
    requested sample and before the second, as for the two inputs above
    started at velocities 1 and 2 and integrated over [(0, 2)]: the step
    size underflows, the status is [-1], and the arrays hold the one sample
    collected, the initial state at the initial time.  Without a requested
    sample nothing is collected. *)
Definition stalling_solver : ivp_solver :=
  fun f t_span y0 method t_eval =>
    match t_eval with
    | [] => Ok (mkOdeResult [] YList (-1) false)
    | t0 :: _ => Ok (mkOdeResult [t0] (YArray (map (fun y => [y]) y0)) (-1) false)
    end.

(** Two Kuramoto oscillators on a helix. *)
Definition kuramoto_pair : MultiParticleSystem :=
  mkMultiParticleSystem (helix 1 1) 2 (Some (kuramoto_interaction 1 None)).

(* ================================================================== *)
(** * Closed forms and loop invariants named by the proofs *)
(* ================================================================== *)

(** The rise per radian [pitch / (2 * np.pi)] of the helix. *)
Definition helix_rise (pitch : R) : R := pitch / (2 * PI).

(** The constant speed of the helix. *)
Definition helix_speed (radius pitch : R) : R :=
  sqrt (radius ^ 2 + helix_rise pitch ^ 2).

(** Entry [i] of [forces] once the external-force loop has run its first
    [k] iterations. *)
Definition forces_after (ef : R -> R -> R -> R) (time : R)
    (positions velocities forces : list R) (k i : nat) : R :=
  if (i <? k)%nat
  then nth i forces 0 + ef time (nth i positions 0) (nth i velocities 0)
  else nth i forces 0.

(* ================================================================== *)
(** * Further curves and named values used by the statements *)
(* ================================================================== *)



(* ================================================================== *)
(** * The alignment interaction over binary64 *)
(* ================================================================== *)

Module F64.

Import PrimFloat.

(** Conversion of a count to a double, exact below [2^53]. *)
Fixpoint of_nat (n : nat) : float :=
  match n with
  | O => 0%float
  | S k => (of_nat k + 1)%float
  end.

(** Sum of an array.  NumPy adds in blocks; on the arrays evaluated below
    every partial sum is exact, so the order plays no part. *)
Definition sum (l : list float) : float := fold_left add l 0%float.

(** [np.mean] *)
Definition mean (l : list float) : float := (sum l / of_nat (length l))%float.

(** [vicsek_like_interaction(coupling, noise)] on doubles. *)
Definition vicsek_like_interaction (coupling noise : float) (randn : nat -> float)
    (positions velocities : list float) : result (list float) :=
  let n := length positions in
  let avg_velocity := mean velocities in
  mapM (fun i =>
          match nth_error velocities i with
          | Some v =>
              let f := (coupling * (avg_velocity - v))%float in
              Ok (if (0 <? noise)%float then (f + noise * randn i)%float else f)
          | None => Err IndexError
          end)
       (seq 0 n).

End F64.

(* ================================================================== *)
(** * Theorems *)
(* ================================================================== *)

Lemma eps_pos : 0 < eps.
Proof. unfold eps; lra. Qed.

Lemma dot_self_nonneg (a : V3) : 0 <= dot a a.
Proof. unfold dot. nra. Qed.

Lemma norm_nonneg (a : V3) : 0 <= norm a.
Proof. apply sqrt_pos. Qed.

Lemma norm_sqr (a : V3) : norm a * norm a = dot a a.
Proof. apply sqrt_sqrt, dot_self_nonneg. Qed.



Lemma derivative_1 (c : ParametricCurve) (t : R) :
  Curve.derivative c t 1 = Ok (Curve.derivative1 c t).
Proof. reflexivity. Qed.

Lemma derivative_2 (c : ParametricCurve) (t : R) :
  Curve.derivative c t 2 = Ok (Curve.derivative2 c t).
Proof. reflexivity. Qed.

Lemma derivative_3 (c : ParametricCurve) (t : R) :
  Curve.derivative c t 3 = Ok (Curve.derivative3 c t).
Proof. reflexivity. Qed.


Example tangent_stationary :
  Curve.speed stationary 5 = Ok 0 /\
  Curve.tangent stationary 5 = Err DegenerateGeometry.
Proof.
  assert (Hn : norm (Curve.derivative1 stationary 5) = 0).
  { unfold norm, dot; cbn.
    replace (0 * 0 + 0 * 0 + 0 * 0) with 0 by ring. apply sqrt_0. }
  unfold Curve.speed, Curve.tangent. rewrite derivative_1. cbn [bind]. rewrite Hn.
  split; [reflexivity|].
  destruct (Rlt_dec 0 eps) as [_ | H]; [reflexivity|].
  exfalso. apply H, eps_pos.
Qed.

(** C4.  [curvature] and [torsion] never raise.  With [g1], [g2], [g3] the
    first three derivatives at [t]: when [norm g1 ^ 3] is below [1e-10],
    [curvature] returns exactly 0, otherwise the nonnegative value
    [norm (cross g1 g2) / norm g1 ^ 3]; when [norm (cross g1 g2) ^ 2] is below
    [1e-10], [torsion] returns exactly 0, otherwise
    [dot (cross g1 g2) g3 / norm (cross g1 g2) ^ 2]. *)
Theorem curvature_torsion_silent_zero (c : ParametricCurve) (t : R) :
  exists g1 g2 g3,
    Curve.derivative c t 1 = Ok g1 /\
    Curve.derivative c t 2 = Ok g2 /\
    Curve.derivative c t 3 = Ok g3 /\
    is_ok (Curve.curvature c t) /\
    is_ok (Curve.torsion c t) /\
    (norm g1 ^ 3 < eps -> Curve.curvature c t = Ok 0) /\
    (~ norm g1 ^ 3 < eps ->
       Curve.curvature c t = Ok (norm (cross g1 g2) / norm g1 ^ 3) /\
       0 <= norm (cross g1 g2) / norm g1 ^ 3) /\
    (norm (cross g1 g2) ^ 2 < eps -> Curve.torsion c t = Ok 0) /\
    (~ norm (cross g1 g2) ^ 2 < eps ->
       Curve.torsion c t = Ok (dot (cross g1 g2) g3 / norm (cross g1 g2) ^ 2)).
Proof.
  exists (Curve.derivative1 c t), (Curve.derivative2 c t), (Curve.derivative3 c t).
  unfold Curve.curvature, Curve.torsion.
  rewrite derivative_1, derivative_2, derivative_3. cbn [bind].
  set (g1 := Curve.derivative1 c t).
  set (g2 := Curve.derivative2 c t).
  set (g3 := Curve.derivative3 c t).
  repeat (split; [reflexivity|]).
  destruct (Rlt_dec (norm g1 ^ 3) eps) as [Hk | Hk];
    destruct (Rlt_dec (norm (cross g1 g2) ^ 2) eps) as [Ht | Ht]; cbn [is_ok];
    repeat match goal with
           | |- _ /\ _ => split
           | |- True => exact I
           | |- _ -> _ => intro
           | H : ~ ?P, H' : ?P |- _ => contradiction
           | |- Ok ?x = Ok ?x => reflexivity
           end.
  all: apply Rmult_le_pos; [apply norm_nonneg|];
    apply Rlt_le, Rinv_0_lt_compat; pose proof eps_pos; lra.
Qed.

(** ** arc length *)

Lemma mapM_speed (c : ParametricCurve) (l : list R) :
  mapM (Curve.speed c) l = Ok (map (fun t => norm (Curve.derivative1 c t)) l).
Proof.
  induction l as [|a l IH]; [reflexivity|].
  cbn [mapM map]. unfold Curve.speed at 1. rewrite derivative_1. cbn [bind].
  rewrite IH. reflexivity.
Qed.

Lemma diff_constant (a : R) (l : list R) :
  Forall (fun x => x = a) l -> Forall (fun d => d = 0) (diff l).
Proof.
  induction l as [|x l IH]; intros H; [constructor|].
  destruct l as [|y l]; [constructor|].
  inversion H as [|? ? Hx Hl]; subst.
  inversion Hl as [|? ? Hy _]; subst.
  cbn [diff]. constructor; [lra | apply IH; assumption].
Qed.

Lemma rsum_zero_steps (ds ss : list R) :
  Forall (fun d => d = 0) ds ->
  rsum (zipWith (fun d s => d * s / 2) ds ss) = 0.
Proof.
  intros H. revert ss. induction H as [|d ds Hd _ IH]; intros ss; [reflexivity|].
  destruct ss as [|s ss]; [reflexivity|].
  cbn [zipWith rsum fold_right]. fold (rsum (zipWith (fun d s => d * s / 2) ds ss)).
  rewrite IH, Hd. lra.
Qed.

Lemma trapz_constant_abscissa (a : R) (y x : list R) :
  Forall (fun v => v = a) x -> trapz y x = 0.
Proof.
  intros H. unfold trapz. apply rsum_zero_steps. eapply diff_constant; eassumption.
Qed.

Lemma set_last_Forall (P : R -> Prop) (l : list R) (v : R) :
  Forall P l -> P v -> Forall P (set_last l v).
Proof.
  intros Hl Hv. induction Hl as [|x l Hx Hl IH]; [constructor|].
  destruct l as [|y l]; cbn [set_last]; constructor; auto.
Qed.

Lemma linspace_degenerate (t0 : R) (n : Z) :
  (0 <= n)%Z ->
  exists l, linspace t0 t0 n = Ok l /\ Forall (fun v => v = t0) l /\
            length l = Z.to_nat n.
Proof.
  intros Hn. unfold linspace.
  destruct (Z.ltb_spec n 0) as [Hneg | _]; [lia|].
  eexists. split; [reflexivity|].
  assert (Hz : forall (m s : nat),
             Forall (fun v => v = t0) (map (fun i => INR i * ((t0 - t0) / INR (Z.to_nat n - 1)) + t0) (seq s m))).
  { intros m. induction m as [|m IH]; intros s; cbn [seq map]; constructor; auto.
    unfold Rdiv. replace (t0 - t0) with 0 by ring. ring. }
  assert (Hz' : forall (m s : nat),
             Forall (fun v => v = t0) (map (fun i => INR i * (t0 - t0) + t0) (seq s m))).
  { intros m. induction m as [|m IH]; intros s; cbn [seq map]; constructor; auto.
    ring. }
  split.
  - destruct (1 <? Z.to_nat n)%nat; destruct (0 <? Z.to_nat n - 1)%nat;
      try apply set_last_Forall; auto.
  - assert (Hlen : forall l v, length (set_last l v) = length l).
    { intros l v. induction l as [|x l IH]; [reflexivity|].
      destruct l as [|y l]; [reflexivity|]. cbn [set_last length] in *. now rewrite IH. }
    destruct (1 <? Z.to_nat n)%nat; destruct (0 <? Z.to_nat n - 1)%nat;
      rewrite ?Hlen, length_map, length_seq; reflexivity.
Qed.

(** C6.  For every curve, every [t0] and every sample count [n] (a count:
    [np.linspace] rejects a negative one), [arc_length(t0, t0, n)] returns
    exactly 0. *)
Theorem arc_length_degenerate_interval (c : ParametricCurve) (t0 : R) (n : Z) :
  (0 <= n)%Z -> Curve.arc_length c t0 t0 n = Ok 0.
Proof.
  intros Hn. unfold Curve.arc_length.
  destruct (linspace_degenerate t0 n Hn) as (l & Hl & Hall & _).
  rewrite Hl. cbn [bind]. rewrite mapM_speed. cbn [bind].
  f_equal. eapply trapz_constant_abscissa; eassumption.
Qed.

Lemma arc_length_degenerate_interval_witness :
  (0 <= 3)%Z /\ Curve.arc_length (helix 1 1) 2 2 3 = Ok 0.
Proof.
  split; [lia | apply (arc_length_degenerate_interval (helix 1 1) 2 3); lia].
Defined.

Example arc_length_negative_count :
  Curve.arc_length (helix 1 1) 2 2 (-1) = Err ShapeError.
Proof. reflexivity. Qed.

Section Helix.

Variables r p : R.
Hypothesis r_pos : 0 < r.

Lemma helix_s_pos : 0 < helix_speed r p.
Proof. apply sqrt_lt_R0. nra. Qed.

Lemma helix_s_sqr : helix_speed r p * helix_speed r p = r ^ 2 + helix_rise p ^ 2.
Proof. apply sqrt_sqrt. nra. Qed.

Lemma helix_norm_prime (t : R) : norm (Curve.derivative1 (helix r p) t) = helix_speed r p.
Proof.
  unfold norm, dot, helix_speed. cbn. fold (helix_rise p). f_equal.
  pose proof (sin2_cos2 t) as H. unfold Rsqr in H.
  generalize dependent (sin t). generalize dependent (cos t). intros C S H. nsatz.
Qed.

Lemma helix_cross_sqr (t : R) :
  dot (cross (Curve.derivative1 (helix r p) t) (Curve.derivative2 (helix r p) t))
      (cross (Curve.derivative1 (helix r p) t) (Curve.derivative2 (helix r p) t))
  = r ^ 2 * (r ^ 2 + helix_rise p ^ 2).
Proof.
  unfold dot, cross. cbn. fold (helix_rise p).
  pose proof (sin2_cos2 t) as H. unfold Rsqr in H.
  generalize dependent (sin t). generalize dependent (cos t). intros C S H. nsatz.
Qed.

Lemma helix_cross_norm (t : R) :
  norm (cross (Curve.derivative1 (helix r p) t) (Curve.derivative2 (helix r p) t)) = r * helix_speed r p.
Proof.
  unfold norm. rewrite helix_cross_sqr.
  apply sqrt_lem_1.
  - nra.
  - pose proof helix_s_pos. nra.
  - pose proof helix_s_sqr. nra.
Qed.

Lemma helix_triple (t : R) :
  dot (cross (Curve.derivative1 (helix r p) t) (Curve.derivative2 (helix r p) t))
      (Curve.derivative3 (helix r p) t)
  = r ^ 2 * helix_rise p.
Proof.
  unfold dot, cross. cbn. fold (helix_rise p).
  pose proof (sin2_cos2 t) as H. unfold Rsqr in H.
  generalize dependent (sin t). generalize dependent (cos t). intros C S H. nsatz.
Qed.

Lemma helix_curvature_cases (t : R) :
  Curve.curvature (helix r p) t =
  Ok (if Rlt_dec (helix_speed r p ^ 3) eps then 0 else r / (r ^ 2 + helix_rise p ^ 2)).
Proof.
  unfold Curve.curvature. rewrite derivative_1, derivative_2. cbn [bind].
  rewrite helix_norm_prime, helix_cross_norm.
  destruct (Rlt_dec (helix_speed r p ^ 3) eps); [reflexivity|].
  f_equal. pose proof helix_s_pos. pose proof helix_s_sqr.
  rewrite <- helix_s_sqr. field. lra.
Qed.

Lemma helix_torsion_cases (t : R) :
  Curve.torsion (helix r p) t =
  Ok (if Rlt_dec (r ^ 2 * (r ^ 2 + helix_rise p ^ 2)) eps then 0 else helix_rise p / (r ^ 2 + helix_rise p ^ 2)).
Proof.
  unfold Curve.torsion. rewrite derivative_1, derivative_2, derivative_3. cbn [bind].
  rewrite helix_triple.
  replace (norm (cross (Curve.derivative1 (helix r p) t)
                       (Curve.derivative2 (helix r p) t)) ^ 2)
    with (r ^ 2 * (r ^ 2 + helix_rise p ^ 2)).
  - destruct (Rlt_dec _ eps); [reflexivity|].
    f_equal. field. split; nra.
  - rewrite <- (helix_cross_sqr t), <- norm_sqr. ring.
Qed.

End Helix.

(** C5, amended.  For the helix of radius [r > 0] and pitch [p], with its
    analytic derivatives, and every [t]: [curvature] returns
    [r / (r^2 + (p/2pi)^2)] when the cube of the speed
    [sqrt (r^2 + (p/2pi)^2)] is at least [1e-10], and 0 below that;
    [torsion] returns [(p/2pi) / (r^2 + (p/2pi)^2)] when
    [r^2 * (r^2 + (p/2pi)^2)] is at least [1e-10], and 0 below that.  Both
    are constant in [t]. *)
Theorem helix_curvature_torsion_closed_form (r p t : R) :
  0 < r ->
  (eps <= sqrt (r ^ 2 + (p / (2 * PI)) ^ 2) ^ 3 ->
     Curve.curvature (helix r p) t = Ok (r / (r ^ 2 + (p / (2 * PI)) ^ 2))) /\
  (sqrt (r ^ 2 + (p / (2 * PI)) ^ 2) ^ 3 < eps ->
     Curve.curvature (helix r p) t = Ok 0) /\
  (eps <= r ^ 2 * (r ^ 2 + (p / (2 * PI)) ^ 2) ->
     Curve.torsion (helix r p) t = Ok ((p / (2 * PI)) / (r ^ 2 + (p / (2 * PI)) ^ 2))) /\
  (r ^ 2 * (r ^ 2 + (p / (2 * PI)) ^ 2) < eps ->
     Curve.torsion (helix r p) t = Ok 0).
Proof.
  intros Hr.
  rewrite (helix_curvature_cases r p Hr t), (helix_torsion_cases r p Hr t).
  unfold helix_speed, helix_rise.
  repeat split; intros H;
    match goal with |- context [Rlt_dec ?a ?b] => destruct (Rlt_dec a b) end;
    try reflexivity; exfalso; lra.
Qed.

Lemma helix_curvature_torsion_closed_form_witness :
  0 < 1 /\
  (eps <= sqrt (1 ^ 2 + (0 / (2 * PI)) ^ 2) ^ 3 ->
     Curve.curvature (helix 1 0) 0 = Ok (1 / (1 ^ 2 + (0 / (2 * PI)) ^ 2))) /\
  (sqrt (1 ^ 2 + (0 / (2 * PI)) ^ 2) ^ 3 < eps ->
     Curve.curvature (helix 1 0) 0 = Ok 0) /\
  (eps <= 1 ^ 2 * (1 ^ 2 + (0 / (2 * PI)) ^ 2) ->
     Curve.torsion (helix 1 0) 0 = Ok ((0 / (2 * PI)) / (1 ^ 2 + (0 / (2 * PI)) ^ 2))) /\
  (1 ^ 2 * (1 ^ 2 + (0 / (2 * PI)) ^ 2) < eps ->
     Curve.torsion (helix 1 0) 0 = Ok 0).
Proof.
  split; [lra | apply (helix_curvature_torsion_closed_form 1 0 0); lra].
Defined.

(** C5 fails as stated: for the helix of radius [1/10000] and pitch 0 the
    closed form of the curvature is 10000 and [curvature] returns 0; for
    the helix of radius [1/1000] and pitch [2pi/1000] the closed form of the
    torsion is 500 and [torsion] returns 0. *)
Lemma helix_closed_form_fails_below_eps :
  0 < 1 / 10000 /\
  Curve.curvature (helix (1 / 10000) 0) 0 = Ok 0 /\
  (1 / 10000) / ((1 / 10000) ^ 2 + (0 / (2 * PI)) ^ 2) = 10000 /\
  0 < 1 / 1000 /\
  Curve.torsion (helix (1 / 1000) (2 * PI / 1000)) 0 = Ok 0 /\
  ((2 * PI / 1000) / (2 * PI)) / ((1 / 1000) ^ 2 + ((2 * PI / 1000) / (2 * PI)) ^ 2) = 500 /\
  Curve.curvature (helix (1 / 10000) 0) 0
    <> Ok ((1 / 10000) / ((1 / 10000) ^ 2 + (0 / (2 * PI)) ^ 2)) /\
  Curve.torsion (helix (1 / 1000) (2 * PI / 1000)) 0
    <> Ok (((2 * PI / 1000) / (2 * PI))
           / ((1 / 1000) ^ 2 + ((2 * PI / 1000) / (2 * PI)) ^ 2)).
Proof.
  pose proof PI_RGT_0 as Hpi.
  assert (Hc : (2 * PI / 1000) / (2 * PI) = 1 / 1000) by (field; lra).
  assert (Hk : Curve.curvature (helix (1 / 10000) 0) 0 = Ok 0).
  { rewrite helix_curvature_cases by lra. unfold helix_speed, helix_rise.
    destruct (Rlt_dec _ eps) as [_ | Hge]; [reflexivity|].
    exfalso. apply Hge.
    replace ((1 / 10000) ^ 2 + (0 / (2 * PI)) ^ 2) with ((1 / 10000) * (1 / 10000))
      by (field; lra).
    rewrite sqrt_square by lra. unfold eps. lra. }
  assert (Ht : Curve.torsion (helix (1 / 1000) (2 * PI / 1000)) 0 = Ok 0).
  { rewrite helix_torsion_cases by lra. unfold helix_rise.
    destruct (Rlt_dec _ eps) as [_ | Hge]; [reflexivity|].
    exfalso. apply Hge. rewrite Hc. unfold eps. lra. }
  assert (H1 : (1 / 10000) / ((1 / 10000) ^ 2 + (0 / (2 * PI)) ^ 2) = 10000)
    by (field; lra).
  assert (H2 : ((2 * PI / 1000) / (2 * PI))
               / ((1 / 1000) ^ 2 + ((2 * PI / 1000) / (2 * PI)) ^ 2) = 500)
    by (rewrite Hc; lra).
  repeat split; try lra; try assumption.
  - rewrite Hk, H1. intros H. injection H as H. lra.
  - rewrite Ht, H2. intros H. injection H as H. lra.
Qed.







(** ** The line of direction (9, sqrt 19, 0) *)










(** ** Lists *)

Lemma nth_map_seq {A : Type} (g : nat -> A) (n i : nat) (d : A) :
  (i < n)%nat -> nth i (map g (seq 0 n)) d = g i.
Proof.
  intros Hi.
  rewrite (nth_indep _ d (g 0%nat)) by (rewrite length_map, length_seq; exact Hi).
  rewrite map_nth, seq_nth by exact Hi. reflexivity.
Qed.

Lemma list_eq_map_seq {A : Type} (l : list A) (n : nat) (g : nat -> A) (d : A) :
  length l = n -> (forall i, (i < n)%nat -> nth i l d = g i) -> l = map g (seq 0 n).
Proof.
  intros Hlen Hnth. apply (nth_ext _ _ d d).
  - rewrite length_map, length_seq. exact Hlen.
  - intros i Hi. rewrite Hlen in Hi. rewrite nth_map_seq by exact Hi. auto.
Qed.

Lemma length_zipWith {A B C : Type} (f : A -> B -> C) (a : list A) (b : list B) :
  length a = length b -> length (zipWith f a b) = length a.
Proof.
  revert b. induction a as [|x a IH]; intros [|y b] H; try discriminate; [reflexivity|].
  cbn. f_equal. apply IH. now injection H.
Qed.

Lemma nth_zipWith {A B C : Type} (f : A -> B -> C) (a : list A) (b : list B)
    (i : nat) (da : A) (db : B) (d : C) :
  (i < length a)%nat -> (i < length b)%nat ->
  nth i (zipWith f a b) d = f (nth i a da) (nth i b db).
Proof.
  revert b i. induction a as [|x a IH]; intros [|y b] i Ha Hb; cbn in *; try lia.
  destruct i as [|i]; [reflexivity|]. apply IH; lia.
Qed.

Lemma length_list_set (a : list R) (i : nat) (v : R) : length (list_set a i v) = length a.
Proof.
  revert i. induction a as [|x a IH]; intros [|i]; cbn; auto.
Qed.

Lemma nth_list_set (a : list R) (i j : nat) (v d : R) :
  (i < length a)%nat ->
  nth j (list_set a i v) d = if (j =? i)%nat then v else nth j a d.
Proof.
  revert i j. induction a as [|x a IH]; intros i j Hi; cbn in Hi; [lia|].
  destruct i as [|i], j as [|j]; cbn; auto.
  apply IH. lia.
Qed.

Lemma get_nth (a : list R) (i : nat) : (i < length a)%nat -> get a i = Ok (nth i a 0).
Proof.
  intros Hi. unfold get. rewrite (nth_error_nth' a 0 Hi). reflexivity.
Qed.

Lemma broadcast_same (n : nat) (a : list R) : length a = n -> broadcast_to n a = Ok a.
Proof. intros H. unfold broadcast_to. rewrite <- H, Nat.eqb_refl. reflexivity. Qed.

Lemma mapM_ext {A B : Type} (f g : A -> result B) (l : list A) :
  (forall a, In a l -> f a = g a) -> mapM f l = mapM g l.
Proof.
  induction l as [|a l IH]; intros H; [reflexivity|].
  cbn [mapM]. rewrite (H a) by (left; reflexivity).
  rewrite IH by (intros; apply H; right; assumption). reflexivity.
Qed.

Lemma mapM_pure {A B : Type} (g : A -> B) (l : list A) :
  mapM (fun a => Ok (g a)) l = Ok (map g l).
Proof.
  induction l as [|a l IH]; [reflexivity|]. cbn [mapM map bind]. rewrite IH. reflexivity.
Qed.

(** ** Constant physical speed *)

(** C9.  The pair [(dposition, dvelocity)] returned by
    [ConstantSpeedDynamics.equations_of_motion] does not depend on the speed
    given to the constructor: two instances over the same curve return the
    same pair, never an error, at every time, position and velocity. *)
Theorem constant_speed_ignores_speed
    (c : ParametricCurve) (speed1 speed2 t position velocity : R) :
  equations_of_motion (mkConstantSpeedDynamics c speed1) t position velocity
  = equations_of_motion (mkConstantSpeedDynamics c speed2) t position velocity /\
  exists acceleration,
    equations_of_motion (mkConstantSpeedDynamics c speed1) t position velocity
    = Ok (velocity, acceleration) /\
    equations_of_motion (mkConstantSpeedDynamics c speed2) t position velocity
    = Ok (velocity, acceleration).
Proof.
  split; [reflexivity|].
  cbn [equations_of_motion ConstantSpeedDynamics_CurveDynamics].
  unfold ConstantSpeed.equations_of_motion. cbn [cs_curve].
  rewrite derivative_1, derivative_2. cbn [bind].
  eexists. split; reflexivity.
Qed.

(** ** Vicsek *)

Lemma rsum_alignment (K m : R) (l : list R) :
  rsum (map (fun v => K * (m - v)) l) = K * (INR (length l) * m - rsum l).
Proof.
  induction l as [|x l IH]; [cbn; ring|].
  cbn [map rsum fold_right]. fold (rsum (map (fun v => K * (m - v)) l)). fold (rsum l).
  rewrite IH. change (length (x :: l)) with (S (length l)). rewrite S_INR. ring.
Qed.

Lemma vicsek_zero_noise_forces (K : R) (randn : nat -> R) (positions velocities : list R) :
  length positions = length velocities ->
  vicsek_like_interaction K 0 randn positions velocities
  = Ok (map (fun v => K * (mean velocities - v)) velocities).
Proof.
  intros Hlen. unfold vicsek_like_interaction.
  rewrite (mapM_ext _ (fun i => Ok (K * (mean velocities - nth i velocities 0)))).
  - rewrite mapM_pure. f_equal. symmetry.
    rewrite Hlen. apply (list_eq_map_seq _ _ _ 0).
    + apply length_map.
    + intros i Hi.
      rewrite (nth_indep _ 0 (K * (mean velocities - 0)))
        by (rewrite length_map; exact Hi).
      apply (map_nth (fun v => K * (mean velocities - v))).
  - intros i Hi. apply in_seq in Hi. rewrite get_nth by lia. cbn [bind].
    destruct (Rlt_dec 0 0) as [H|_]; [lra | reflexivity].
Qed.

(** C10, amended.  In exact real arithmetic, with [noise = 0] and positions
    and velocities of the same length, the Vicsek-like interaction returns
    [force[i] = K * (mean(velocity) - velocity[i])] and these forces sum to
    0.  (In binary64 the sum vanishes only up to rounding.) *)
Theorem vicsek_zero_noise_conserves_total
    (K : R) (randn : nat -> R) (positions velocities : list R) :
  length positions = length velocities ->
  exists forces,
    vicsek_like_interaction K 0 randn positions velocities = Ok forces /\
    forces = map (fun v => K * (mean velocities - v)) velocities /\
    rsum forces = 0.
Proof.
  intros Hlen. eexists. split; [apply vicsek_zero_noise_forces; exact Hlen|].
  split; [reflexivity|].
  rewrite rsum_alignment. unfold mean.
  destruct velocities as [|v vs]; [cbn; ring|].
  assert (Hn : INR (length (v :: vs)) <> 0).
  { apply not_0_INR. discriminate. }
  field. exact Hn.
Qed.

Lemma vicsek_zero_noise_conserves_total_witness :
  length [0; 0; 0] = length [1; 2; 4] /\
  exists forces,
    vicsek_like_interaction 3 0 (fun _ => 7) [0; 0; 0] [1; 2; 4] = Ok forces /\
    forces = map (fun v => 3 * (mean [1; 2; 4] - v)) [1; 2; 4] /\
    rsum forces = 0.
Proof.
  split; [reflexivity|].
  apply (vicsek_zero_noise_conserves_total 3 (fun _ => 7) [0; 0; 0] [1; 2; 4]).
  reflexivity.
Defined.

Module Binary64.

Import PrimFloat.
#[local] Open Scope float_scope.

(** C10 fails as stated: in binary64, for [K = 3], [noise = 0] and
    velocities [1, 1, 2], the mean is the double nearest to 4/3, the forces
    are [1 - 2^-52], [1 - 2^-52] and [-2], and their sum is [-2^-51], not 0. *)
Lemma vicsek_forces_do_not_cancel :
  F64.mean [1; 1; 2] = 0x1.5555555555555p+0 /\
  F64.vicsek_like_interaction 3 0 (fun _ => 0) [0; 0; 0] [1; 1; 2]
  = Ok [0x1.ffffffffffffep-1; 0x1.ffffffffffffep-1; -2] /\
  F64.sum [0x1.ffffffffffffep-1; 0x1.ffffffffffffep-1; -2] = -0x1p-51 /\
  (F64.sum [0x1.ffffffffffffep-1; 0x1.ffffffffffffep-1; -2] =? 0) = false.
Proof. repeat split; vm_compute; reflexivity. Qed.

End Binary64.

(** ** The external-force loop *)

Section ExternalLoop.

Variables (ef : R -> R -> R -> R) (time : R) (positions velocities forces : list R).
Variable n : nat.
Hypothesis Hp : length positions = n.
Hypothesis Hv : length velocities = n.
Hypothesis Hf : length forces = n.

Lemma external_loop_prefix (k : nat) :
  (k <= n)%nat ->
  fold_left (Multi.external_step ef time positions velocities) (seq 0 k) (Ok forces)
  = Ok (map (forces_after ef time positions velocities forces k) (seq 0 n)).
Proof.
  induction k as [|k IH]; intros Hk.
  - cbn [seq fold_left]. f_equal. apply (list_eq_map_seq _ _ _ 0); [exact Hf|].
    intros i _. reflexivity.
  - rewrite seq_S, fold_left_app, IH by lia. cbn [fold_left Nat.add].
    unfold Multi.external_step. cbn [bind].
    rewrite !get_nth by (rewrite ?length_map, ?length_seq; lia). cbn [bind].
    f_equal. apply (list_eq_map_seq _ _ _ 0).
    + rewrite length_list_set, length_map, length_seq. reflexivity.
    + intros i Hi.
      rewrite nth_list_set by (rewrite length_map, length_seq; lia).
      rewrite !nth_map_seq by lia. unfold forces_after.
      destruct (Nat.eqb_spec i k) as [-> | Hne].
      * rewrite Nat.ltb_irrefl.
        destruct (Nat.ltb_spec k (S k)); [reflexivity | lia].
      * destruct (Nat.ltb_spec i k), (Nat.ltb_spec i (S k)); try lia; reflexivity.
Qed.

Lemma external_loop :
  fold_left (Multi.external_step ef time positions velocities) (seq 0 n) (Ok forces)
  = Ok (map (fun i => nth i forces 0 + ef time (nth i positions 0) (nth i velocities 0))
            (seq 0 n)).
Proof.
  rewrite external_loop_prefix by lia. f_equal.
  apply map_ext_in. intros i Hi. apply in_seq in Hi. unfold forces_after.
  destruct (Nat.ltb_spec i n); [reflexivity | lia].
Qed.

End ExternalLoop.

(** ** The assembled right-hand side *)

Lemma equations_of_motion_blocks
    (self : MultiParticleSystem) (time : R) (state : list R) (damping : R)
    (external_force : option (R -> R -> R -> R)) (F : list R) :
  let n := n_particles self in
  let positions := firstn n state in
  let velocities := skipn n state in
  length state = (2 * n)%nat ->
  interaction_forces self positions velocities = Ok F ->
  length F = n ->
  Multi.equations_of_motion self time state damping external_force
  = Ok (velocities ++
        map (fun i => nth i F 0
                      + external_at external_force time (nth i positions 0) (nth i velocities 0)
                      - damping * nth i velocities 0)
            (seq 0 n)).
Proof.
  intros n positions velocities Hstate HF HlenF.
  assert (Hlp : length positions = n) by (unfold positions; rewrite length_firstn; lia).
  assert (Hlv : length velocities = n) by (unfold velocities; rewrite length_skipn; lia).
  unfold Multi.equations_of_motion. fold n positions velocities.
  rewrite (broadcast_same n velocities Hlv). cbn [bind].
  assert (Hint :
    match interaction_function self with
    | Some f => interaction_forces0 <- f positions velocities ;; iadd (zeros n) interaction_forces0
    | None => Ok (zeros n)
    end = Ok (map (fun i => nth i F 0) (seq 0 n))).
  { unfold interaction_forces in HF. fold n in HF.
    destruct (interaction_function self) as [f|].
    - rewrite HF. cbn [bind]. unfold iadd, zeros. rewrite repeat_length.
      rewrite (broadcast_same n F HlenF). cbn [bind]. f_equal.
      apply (list_eq_map_seq _ _ _ 0).
      + rewrite length_zipWith; rewrite repeat_length; auto.
      + intros i Hi. rewrite (nth_zipWith _ _ _ _ 0 0) by (rewrite ?repeat_length; lia).
        rewrite nth_repeat_lt by exact Hi. ring.
    - injection HF as <-. f_equal. apply (list_eq_map_seq _ _ _ 0).
      + apply repeat_length.
      + reflexivity. }
  rewrite Hint. cbn [bind].
  set (F1 := map (fun i => nth i F 0) (seq 0 n)).
  assert (HlF1 : length F1 = n) by (unfold F1; rewrite length_map, length_seq; reflexivity).
  assert (Hext :
    match external_force with
    | Some ef => fold_left (Multi.external_step ef time positions velocities) (seq 0 n) (Ok F1)
    | None => Ok F1
    end = Ok (map (fun i => nth i F 0
                            + external_at external_force time (nth i positions 0)
                                (nth i velocities 0))
                  (seq 0 n))).
  { destruct external_force as [ef|]; cbn [external_at].
    - rewrite (external_loop ef time positions velocities F1 n Hlp Hlv HlF1). f_equal.
      apply map_ext_in. intros i Hi. apply in_seq in Hi.
      unfold F1. rewrite nth_map_seq by lia. reflexivity.
    - f_equal. unfold F1. apply map_ext. intros i. ring. }
  rewrite Hext. cbn [bind].
  unfold isub. rewrite length_map, length_seq.
  rewrite broadcast_same by (rewrite length_map; exact Hlv). cbn [bind].
  f_equal. f_equal. apply (list_eq_map_seq _ _ _ 0).
  - rewrite length_zipWith; rewrite !length_map, ?length_seq; auto.
  - intros i Hi.
    rewrite (nth_zipWith _ _ _ _ 0 0) by (rewrite ?length_map, ?length_seq; lia).
    rewrite nth_map_seq by exact Hi.
    replace (nth i (map (Rmult damping) velocities) 0) with (damping * nth i velocities 0).
    + reflexivity.
    + rewrite <- (map_nth (Rmult damping)). f_equal. ring.
Qed.

(** C8.  For a state of length [2N] (and an interaction function that
    returns [N] forces), [MultiParticleSystem.equations_of_motion] returns a
    vector of length [2N] whose first [N] entries are the velocity block of
    the state and whose entry [N + i] is the interaction force on particle
    [i] (zero without an interaction function) plus the external force at
    [(time, position_i, velocity_i)] (zero when none is supplied) minus
    damping times [velocity_i]; with the default damping 0 the last term
    vanishes. *)
Theorem multi_equations_of_motion_assembly
    (self : MultiParticleSystem) (time : R) (state : list R) (damping : R)
    (external_force : option (R -> R -> R -> R)) (F : list R) :
  length state = (2 * n_particles self)%nat ->
  interaction_forces self (firstn (n_particles self) state) (skipn (n_particles self) state)
    = Ok F ->
  length F = n_particles self ->
  exists d_state,
    Multi.equations_of_motion self time state damping external_force = Ok d_state /\
    length d_state = (2 * n_particles self)%nat /\
    firstn (n_particles self) d_state = skipn (n_particles self) state /\
    skipn (n_particles self) d_state
    = map (fun i =>
             nth i F 0
             + external_at external_force time
                 (nth i state 0) (nth (n_particles self + i) state 0)
             - damping * nth (n_particles self + i) state 0)
          (seq 0 (n_particles self)) /\
    (interaction_function self = None -> forall i, nth i F 0 = 0) /\
    (external_force = None -> forall p v, external_at external_force time p v = 0) /\
    Multi.equations_of_motion self time state 0 external_force
    = Ok (skipn (n_particles self) state ++
          map (fun i =>
                 nth i F 0
                 + external_at external_force time
                     (nth i state 0) (nth (n_particles self + i) state 0))
              (seq 0 (n_particles self))).
Proof.
  intros Hstate HF HlenF.
  set (n := n_particles self) in *.
  assert (Hlv : length (skipn n state) = n) by (rewrite length_skipn; lia).
  assert (Hterm : forall d,
    map (fun i => nth i F 0
                  + external_at external_force time (nth i (firstn n state) 0)
                      (nth i (skipn n state) 0)
                  - d * nth i (skipn n state) 0) (seq 0 n)
    = map (fun i => nth i F 0
                    + external_at external_force time (nth i state 0) (nth (n + i) state 0)
                    - d * nth (n + i) state 0) (seq 0 n)).
  { intros d. apply map_ext_in. intros i Hi. apply in_seq in Hi.
    rewrite nth_firstn, !nth_skipn.
    destruct (Nat.ltb_spec i n); [reflexivity | lia]. }
  eexists. split; [apply (equations_of_motion_blocks self time state damping external_force F);
                   assumption|].
  fold n. repeat split.
  - rewrite length_app, length_map, length_seq, Hlv. lia.
  - rewrite <- Hlv at 1. rewrite firstn_app, Nat.sub_diag, firstn_all. cbn. apply app_nil_r.
  - rewrite <- Hlv at 1. rewrite skipn_app, Nat.sub_diag, skipn_all. cbn. apply Hterm.
  - intros Hnone i. unfold interaction_forces in HF. rewrite Hnone in HF.
    injection HF as <-. unfold zeros. destruct (Nat.lt_ge_cases i (n_particles self)).
    + apply nth_repeat_lt. assumption.
    + apply nth_overflow. rewrite repeat_length. assumption.
  - intros -> p v. reflexivity.
  - rewrite (equations_of_motion_blocks self time state 0 external_force F) by assumption.
    fold n. f_equal. f_equal. rewrite Hterm. apply map_ext. intros i. ring.
Qed.

Lemma multi_equations_of_motion_assembly_witness :
  let self := mkMultiParticleSystem (helix 1 1) 2 None in
  let state := [1; 2; 3; 4] in
  length state = (2 * n_particles self)%nat /\
  interaction_forces self (firstn (n_particles self) state) (skipn (n_particles self) state)
    = Ok [0; 0] /\
  length [0; 0] = n_particles self /\
  Multi.equations_of_motion self 0 state 0 (Some (fun t p v => p + v))
  = Ok ([3; 4] ++ [0 + (1 + 3); 0 + (2 + 4)]).
Proof.
  cbv zeta. repeat (split; [reflexivity|]).
  destruct (multi_equations_of_motion_assembly
              (mkMultiParticleSystem (helix 1 1) 2 None) 0 [1; 2; 3; 4] 0
              (Some (fun t p v => p + v)) [0; 0] eq_refl eq_refl eq_refl)
    as (d & _ & _ & _ & _ & _ & _ & H).
  exact H.
Defined.

(** ** Integration *)

Lemma linspace_nonneg (a b : R) (n : Z) :
  (0 <= n)%Z -> exists l, linspace a b n = Ok l.
Proof.
  intros Hn. unfold linspace. destruct (Z.ltb_spec n 0); [lia|]. eexists; reflexivity.
Qed.

(** C1.  The code does not surface a failed integration.  Whenever the
    solver returns its result object with status [-1] (a step failed) and
    the samples collected so far, [CurveDynamics.integrate] returns
    [(t, y[0], y[1])] and [MultiParticleSystem.integrate] returns
    [(t, y[:n].T, y[n:].T)] of that truncated result; no error is raised. *)
Theorem integrate_returns_a_failed_run :
  (forall (solve_ivp : ivp_solver) (D : Type) (dyn : CurveDynamics D) (self : D)
          (initial_position initial_velocity : R) (t_span : R * R) (n_points : Z)
          (method : ode_method) (t_eval : list R) (sol : OdeResult)
          (positions velocities : list R) (rest : list (list R)),
      linspace (fst t_span) (snd t_span) n_points = Ok t_eval ->
      solve_ivp (Single.system self) t_span [initial_position; initial_velocity]
                method t_eval = Ok sol ->
      sol_status sol = (-1)%Z ->
      sol_y sol = YArray (positions :: velocities :: rest) ->
      Single.integrate solve_ivp self initial_position initial_velocity t_span n_points method
      = Ok (sol_t sol, positions, velocities)) /\
  (forall (solve_ivp : ivp_solver) (self : MultiParticleSystem)
          (initial_positions initial_velocities : list R) (t_span : R * R) (n_points : Z)
          (method : ode_method) (damping : R) (external_force : option (R -> R -> R -> R))
          (t_eval : list R) (sol : OdeResult) (rows : list (list R)),
      linspace (fst t_span) (snd t_span) n_points = Ok t_eval ->
      solve_ivp (fun t y => Multi.equations_of_motion self t y damping external_force)
                t_span (initial_positions ++ initial_velocities) method t_eval = Ok sol ->
      sol_status sol = (-1)%Z ->
      sol_y sol = YArray rows ->
      Multi.integrate solve_ivp self initial_positions initial_velocities t_span n_points
                      method damping external_force
      = Ok (sol_t sol,
            transpose (length (sol_t sol)) (firstn (n_particles self) rows),
            transpose (length (sol_t sol)) (skipn (n_particles self) rows))).
Proof.
  split.
  - intros solve_ivp D dyn self p0 v0 t_span n_points method t_eval sol ps vs rest
           Hl Hs _ Hy.
    unfold Single.integrate. rewrite Hl. cbn [bind]. rewrite Hs. cbn [bind].
    rewrite Hy. reflexivity.
  - intros solve_ivp self ps vs t_span n_points method damping ef t_eval sol rows
           Hl Hs _ Hy.
    unfold Multi.integrate. rewrite Hl. cbn [bind]. rewrite Hs. cbn [bind].
    rewrite Hy. reflexivity.
Qed.

Lemma linspace_0_2_2 : linspace 0 2 2 = Ok [0; 2].
Proof.
  unfold linspace. change (Z.to_nat 2) with 2%nat. cbn.
  f_equal. apply f_equal2; [lra | reflexivity].
Qed.

Lemma integrate_returns_a_failed_run_witness :
  linspace 0 2 2 = Ok [0; 2] /\
  stalling_solver (Single.system (mkRunawayDynamics (helix 1 1))) (0, 2) [0; 1] RK45 [0; 2]
  = Ok (mkOdeResult [0] (YArray [[0]; [1]]) (-1) false) /\
  Single.integrate stalling_solver (mkRunawayDynamics (helix 1 1)) 0 1 (0, 2) 2 RK45
  = Ok ([0], [0], [1]) /\
  stalling_solver
    (fun t y => Multi.equations_of_motion free_gas t y 0 (Some runaway_force))
    (0, 2) ([0; 3] ++ [1; 2]) RK45 [0; 2]
  = Ok (mkOdeResult [0] (YArray [[0]; [3]; [1]; [2]]) (-1) false) /\
  Multi.integrate stalling_solver free_gas [0; 3] [1; 2] (0, 2) 2 RK45 0 (Some runaway_force)
  = Ok ([0], [[0; 3]], [[1; 2]]) /\
  (length [0] < Z.to_nat 2)%nat.
Proof.
  split; [exact linspace_0_2_2|]. split; [reflexivity|].
  split.
  - exact (proj1 integrate_returns_a_failed_run
             stalling_solver _ _ (mkRunawayDynamics (helix 1 1)) 0 1 (0, 2) 2%Z RK45
             _ _ [0] [1] [] linspace_0_2_2 eq_refl eq_refl eq_refl).
  - split; [reflexivity|]. split; [|cbn; lia].
    exact (proj2 integrate_returns_a_failed_run
             stalling_solver free_gas [0; 3] [1; 2] (0, 2) 2%Z RK45 0 (Some runaway_force)
             _ _ _ linspace_0_2_2 eq_refl eq_refl eq_refl).
Defined.

(** A run that collected no sample leaves [y] a Python list: indexing it,
    or taking its transpose, raises. *)
Example integrate_without_a_sample :
  Single.integrate stalling_solver (mkRunawayDynamics (helix 1 1)) 0 1 (0, 2) 0 RK45
  = Err IndexError /\
  Multi.integrate stalling_solver free_gas [0; 3] [1; 2] (0, 2) 0 RK45 0 (Some runaway_force)
  = Err AttributeError.
Proof. split; reflexivity. Qed.

(** ** Repeated entries *)

Lemma repeat_as_map (a : R) (n : nat) (g : nat -> R) :
  (forall i, (i < n)%nat -> g i = a) -> map g (seq 0 n) = repeat a n.
Proof.
  intros Hg. symmetry. apply (list_eq_map_seq _ _ _ 0); [apply repeat_length|].
  intros i Hi. rewrite nth_repeat_lt by exact Hi. symmetry. auto.
Qed.

Lemma zipWith_repeat {A B C : Type} (f : A -> B -> C) (a : A) (b : B) (n : nat) :
  zipWith f (repeat a n) (repeat b n) = repeat (f a b) n.
Proof. induction n as [|n IH]; [reflexivity|]. cbn. f_equal. exact IH. Qed.

(** ** Kuramoto forces of a synchronized configuration *)

Lemma pair_loop_no_contribution (n i : nat) (term : nat -> nat -> R) (init : R) :
  (forall j, (j < n)%nat -> term i j = 0) -> pair_loop n i term init = init.
Proof.
  intros Hz. unfold pair_loop.
  assert (H : forall l acc, (forall j, In j l -> (j < n)%nat) ->
            fold_left (fun acc j => if (i =? j)%nat then acc else acc + term i j) l acc = acc).
  { induction l as [|j l IH]; intros acc Hl; [reflexivity|].
    cbn [fold_left]. rewrite Hz by (apply Hl; left; reflexivity).
    replace (if (i =? j)%nat then acc else acc + 0) with acc
      by (destruct (i =? j)%nat; ring).
    apply IH. intros k Hk. apply Hl. right. exact Hk. }
  apply H. intros j Hj. apply in_seq in Hj. lia.
Qed.

Lemma kuramoto_synchronized
    (coupling : R) (w : option R) (n : nat) (p : R) (velocities : list R) :
  kuramoto_interaction coupling (option_map (fun x => repeat x n) w) (repeat p n) velocities
  = Ok (repeat (match w with Some x => 0 + x | None => 0 end) n).
Proof.
  unfold kuramoto_interaction. rewrite repeat_length.
  assert (Hloop : forall forces a,
            (forall i, (i < n)%nat -> nth i forces 0 = a) ->
            map (fun i =>
                   pair_loop n i
                     (fun i j => coupling / INR n
                                 * sin (nth j (repeat p n) 0 - nth i (repeat p n) 0))
                     (nth i forces 0)) (seq 0 n) = repeat a n).
  { intros forces a Hf. apply repeat_as_map. intros i Hi.
    rewrite pair_loop_no_contribution; [auto|].
    intros j Hj. rewrite !nth_repeat_lt by assumption.
    rewrite Rminus_diag, sin_0. ring. }
  destruct w as [x|]; cbn [option_map].
  - unfold iadd, zeros. rewrite repeat_length.
    rewrite broadcast_same by apply repeat_length. cbn [bind]. f_equal.
    apply Hloop. intros i Hi. rewrite zipWith_repeat. apply nth_repeat_lt. exact Hi.
  - cbn [bind]. f_equal. apply Hloop.
    intros i Hi. unfold zeros. apply nth_repeat_lt. exact Hi.
Qed.

(** X27.  Perfect synchrony is invariant under the right-hand side: for N
    Kuramoto particles with one common natural frequency (or none), at a
    state where all positions are p and all velocities are v,
    equations_of_motion returns N copies of v followed by N copies of
    frequency + external_force(time, p, v) - damping * v; every coupling
    term is sin(0) = 0. *)
Theorem kuramoto_rhs_keeps_synchrony
    (c : ParametricCurve) (N : nat) (coupling : R) (w : option R)
    (p v time damping : R) (external_force : option (R -> R -> R -> R)) :
  Multi.equations_of_motion
    (mkMultiParticleSystem c N
       (Some (kuramoto_interaction coupling (option_map (fun x => repeat x N) w))))
    time (repeat p N ++ repeat v N) damping external_force
  = Ok (repeat v N ++
        repeat (match w with Some x => x | None => 0 end
                + external_at external_force time p v - damping * v) N).
Proof.
  set (self := mkMultiParticleSystem c N
                 (Some (kuramoto_interaction coupling (option_map (fun x => repeat x N) w)))).
  assert (Hlen : length (repeat p N ++ repeat v N) = (2 * N)%nat).
  { rewrite length_app, !repeat_length. lia. }
  assert (Hpos : firstn N (repeat p N ++ repeat v N) = repeat p N).
  { rewrite firstn_app, repeat_length, Nat.sub_diag. cbn [firstn].
    rewrite app_nil_r. apply firstn_all2. rewrite repeat_length. lia. }
  assert (Hvel : skipn N (repeat p N ++ repeat v N) = repeat v N).
  { rewrite skipn_app, repeat_length, Nat.sub_diag. cbn [skipn].
    rewrite skipn_all2 by (rewrite repeat_length; lia). reflexivity. }
  pose proof (equations_of_motion_blocks self time (repeat p N ++ repeat v N) damping
                external_force
                (repeat (match w with Some x => 0 + x | None => 0 end) N)) as Heom.
  cbv zeta in Heom. change (n_particles self) with N in Heom.
  rewrite Hpos, Hvel in Heom.
  rewrite Heom; [| exact Hlen | apply kuramoto_synchronized | apply repeat_length].
  f_equal. f_equal. apply repeat_as_map.
  intros i Hi. rewrite !nth_repeat_lt by exact Hi. destruct w; ring.
Qed.

(* ================================================================== *)
(** * Further properties of the code *)
(* ================================================================== *)

(** ** Supported derivative orders *)

(** X1.  derivative(t, order) returns a vector exactly when order is 1, 2 or
    3; for every other integer order it raises the 'order not supported' error
    carrying that order. *)
Theorem derivative_supported_orders (c : ParametricCurve) (t : R) (order : Z) :
  (is_ok (Curve.derivative c t order) <-> (order = 1 \/ order = 2 \/ order = 3)%Z) /\
  (~ (order = 1 \/ order = 2 \/ order = 3)%Z ->
   Curve.derivative c t order = Err (UnsupportedOrder order)).
Proof.
  unfold Curve.derivative.
  destruct (Z.eqb_spec order 1) as [H1|H1]; [cbn; split; [tauto|intros H; exfalso; tauto]|].
  destruct (Z.eqb_spec order 2) as [H2|H2]; [cbn; split; [tauto|intros H; exfalso; tauto]|].
  destruct (Z.eqb_spec order 3) as [H3|H3]; [cbn; split; [tauto|intros H; exfalso; tauto]|].
  cbn. split; [split; [contradiction | intros [?|[?|?]]; contradiction] | reflexivity].
Qed.

(** ** Vectors *)


(** ** The frame *)





(** ** Orthonormality of the fallback frame *)










(** ** When the whole frame is defined *)




(** ** Arc length *)

(** X6.  With n_points equal to 0 or 1, arc_length(t0, t1, n_points) returns 0
    whatever the curve and the interval: the trapezoidal rule has no interval
    to sum. *)
Theorem arc_length_needs_two_samples (c : ParametricCurve) (t0 t1 : R) (n : Z) :
  (n = 0 \/ n = 1)%Z -> Curve.arc_length c t0 t1 n = Ok 0.
Proof.
  intros [-> | ->]; unfold Curve.arc_length, linspace; cbn [Z.ltb Z.compare bind].
  - reflexivity.
  - change (Z.to_nat 1) with 1%nat. cbn [Nat.sub Nat.ltb Nat.leb seq map set_last bind].
    rewrite mapM_speed. reflexivity.
Qed.

Lemma arc_length_needs_two_samples_witness :
  (1 = 0 \/ 1 = 1)%Z /\ Curve.arc_length (helix 1 1) 0 100 1 = Ok 0.
Proof.
  split; [right; reflexivity|].
  apply (arc_length_needs_two_samples (helix 1 1) 0 100 1). right. reflexivity.
Defined.

(** ** Arc length of a curve of constant speed *)











(** ** Circles *)


Section PlaneCircle.

Variables (r : R) (u v : V3) (t : R).
Hypothesis Huu : dot u u = 1.
Hypothesis Hvv : dot v v = 1.
Hypothesis Huv : dot u v = 0.





End PlaneCircle.

Lemma sqrt_sqr_pos (r : R) : 0 <= r -> sqrt (r * r) = r.
Proof. apply sqrt_square. Qed.








(** ** Viviani's curve *)


(** ** Single-particle laws *)

Lemma constant_speed_unfold (c : ParametricCurve) (s t position velocity : R) :
  equations_of_motion (mkConstantSpeedDynamics c s) t position velocity
  = Ok (velocity,
        if Rlt_dec (norm (Curve.derivative1 c position)) eps then 0
        else - (dot (Curve.derivative1 c position) (Curve.derivative2 c position)
                / norm (Curve.derivative1 c position) ^ 2) * velocity ^ 2).
Proof.
  cbn [equations_of_motion ConstantSpeedDynamics_CurveDynamics].
  unfold ConstantSpeed.equations_of_motion. cbn [cs_curve].
  rewrite derivative_1, derivative_2. reflexivity.
Qed.

(** X12.  On every curve and at every position,
    ConstantSpeedDynamics.equations_of_motion with velocity 0 returns (0, 0):
    a particle at rest is not accelerated. *)
Theorem constant_speed_at_rest_stays_at_rest (c : ParametricCurve) (s t position : R) :
  equations_of_motion (mkConstantSpeedDynamics c s) t position 0 = Ok (0, 0).
Proof.
  rewrite constant_speed_unfold. f_equal. f_equal.
  destruct (Rlt_dec _ eps); ring.
Qed.

(** X14.  CurvatureDrivenDynamics.equations_of_motion never raises: it returns
    (velocity, f(kappa) - damping*velocity) where kappa is
    curvature(position), and the force function is only ever applied to a
    nonnegative kappa. *)
Theorem curvature_driven_law
    (c : ParametricCurve) (f : R -> R) (damping t position velocity : R) :
  exists kappa,
    Curve.curvature c position = Ok kappa /\
    0 <= kappa /\
    equations_of_motion (mkCurvatureDrivenDynamics c f damping) t position velocity
    = Ok (velocity, f kappa - damping * velocity).
Proof.
  cbn [equations_of_motion CurvatureDrivenDynamics_CurveDynamics].
  unfold CurvatureDriven.equations_of_motion. cbn [cd_curve force_function cd_damping].
  unfold Curve.curvature. rewrite derivative_1, derivative_2. cbn [bind].
  destruct (Rlt_dec _ eps) as [Hlt|Hge]; eexists; (split; [reflexivity|]);
    (split; [|reflexivity]).
  - lra.
  - apply Rmult_le_pos; [apply norm_nonneg|].
    apply Rlt_le, Rinv_0_lt_compat. pose proof eps_pos. lra.
Qed.



(** ** Sums *)

Lemma rsum_cons (x : R) (l : list R) : rsum (x :: l) = x + rsum l.
Proof. reflexivity. Qed.

(** ** Two repelling or attracting particles *)

(** X20.  For two particles at a < b, with positive coupling and cutoff, the
    repulsive interaction returns [-K/d^2, K/d^2] with d = max(b - a, cutoff):
    the left particle is pushed left and the right one right. *)
Theorem repulsive_pair_pushes_apart (coupling cutoff a b : R) (velocities : list R) :
  a < b -> 0 < coupling -> 0 < cutoff ->
  exists f0 f1,
    repulsive_interaction coupling cutoff [a; b] velocities = Ok [f0; f1] /\
    f0 = - (coupling / Rmax (b - a) cutoff ^ 2) /\
    f1 = coupling / Rmax (b - a) cutoff ^ 2 /\
    f0 < 0 < f1.
Proof.
  intros Hab HK Hc.
  assert (Hd : 0 < Rmax (b - a) cutoff).
  { apply Rlt_le_trans with cutoff; [exact Hc | apply Rmax_r]. }
  assert (Hq : 0 < coupling / Rmax (b - a) cutoff ^ 2).
  { apply Rdiv_lt_0_compat; [exact HK | nra]. }
  assert (Hs1 : sign (b - a) = 1).
  { unfold sign. destruct (Rlt_dec (b - a) 0), (Rlt_dec 0 (b - a)); lra. }
  assert (Hs2 : sign (a - b) = -1).
  { unfold sign. destruct (Rlt_dec (a - b) 0); lra. }
  assert (Ha1 : Rabs (b - a) = b - a) by (apply Rabs_pos_eq; lra).
  assert (Ha2 : Rabs (a - b) = b - a).
  { rewrite Rabs_left by lra. ring. }
  eexists _, _. split; [|split; [reflexivity|split; [reflexivity|lra]]].
  unfold repulsive_interaction, pair_loop. cbn [length seq map fold_left Nat.eqb nth zeros repeat].
  rewrite Hs1, Hs2, Ha1, Ha2. f_equal. f_equal; [|f_equal]; field; lra.
Qed.

Lemma repulsive_pair_pushes_apart_witness :
  1 < 2 /\ 0 < 3 /\ 0 < 1 /\
  exists f0 f1,
    repulsive_interaction 3 1 [1; 2] [0; 0] = Ok [f0; f1] /\
    f0 = - (3 / Rmax (2 - 1) 1 ^ 2) /\
    f1 = 3 / Rmax (2 - 1) 1 ^ 2 /\
    f0 < 0 < f1.
Proof.
  split; [lra|]. split; [lra|]. split; [lra|].
  apply (repulsive_pair_pushes_apart 3 1 1 2 [0; 0]); lra.
Defined.

(** X28.  For two particles at a < b the attractive interaction returns
    [K*(b - a), -(K*(b - a))] when the range is unbounded or exceeds b - a,
    and [0, 0] when the range is at most b - a: within range the particles
    are pulled towards each other with equal and opposite forces. *)
Theorem attractive_pair_pulls_together
    (coupling a b : R) (range_param : option R) (velocities : list R) :
  a < b ->
  (match range_param with Some r => b - a < r | None => True end ->
   attractive_interaction coupling range_param [a; b] velocities
   = Ok [coupling * (b - a); - (coupling * (b - a))]) /\
  (match range_param with Some r => r <= b - a | None => False end ->
   attractive_interaction coupling range_param [a; b] velocities = Ok [0; 0]).
Proof.
  intros Hab.
  assert (Hs1 : sign (b - a) = 1).
  { unfold sign. destruct (Rlt_dec (b - a) 0), (Rlt_dec 0 (b - a)); lra. }
  assert (Hs2 : sign (a - b) = -1).
  { unfold sign. destruct (Rlt_dec (a - b) 0); lra. }
  assert (Ha1 : Rabs (b - a) = b - a) by (apply Rabs_pos_eq; lra).
  assert (Ha2 : Rabs (a - b) = b - a).
  { rewrite Rabs_left by lra. ring. }
  unfold attractive_interaction, pair_loop.
  cbn [length seq map fold_left Nat.eqb nth zeros repeat].
  rewrite Hs1, Hs2, Ha1, Ha2.
  split; intros Hr.
  - destruct range_param as [r|].
    + destruct (Rlt_dec (b - a) r) as [_|Hn]; [|contradiction].
      f_equal. f_equal; [|f_equal]; ring.
    + f_equal. f_equal; [|f_equal]; ring.
  - destruct range_param as [r|]; [|contradiction].
    destruct (Rlt_dec (b - a) r) as [Hlt|_]; [lra|].
    f_equal. f_equal; [|f_equal]; ring.
Qed.

Lemma attractive_pair_pulls_together_witness :
  1 < 3 /\
  attractive_interaction 2 None [1; 3] [0; 0] = Ok [2 * (3 - 1); - (2 * (3 - 1))] /\
  attractive_interaction 2 (Some 1) [1; 3] [0; 0] = Ok [0; 0].
Proof.
  assert (H : 1 < 3) by lra.
  split; [exact H|]. split.
  - exact (proj1 (attractive_pair_pulls_together 2 1 3 None [0; 0] H) I).
  - apply (proj2 (attractive_pair_pulls_together 2 1 3 (Some 1) [0; 0] H)). cbn. lra.
Defined.

(** ** Loops that may raise *)

Lemma mapM_err_uniform {A B : Type} (f : A -> result B) (l : list A) (e : error) :
  (forall a, In a l -> is_ok (f a) \/ f a = Err e) ->
  (exists a, In a l /\ f a = Err e) ->
  mapM f l = Err e.
Proof.
  induction l as [|a l IH]; intros Hall (x & Hx & Hfx); [contradiction|].
  cbn [mapM].
  destruct (Hall a (or_introl eq_refl)) as [Hok | Herr]; [|rewrite Herr; reflexivity].
  destruct (f a) as [b|e'] eqn:Hfa; [|contradiction]. cbn [bind].
  destruct Hx as [<- | Hx]; [rewrite Hfa in Hfx; discriminate|].
  rewrite IH; [reflexivity | | exists x; auto].
  intros a' Ha'. apply Hall. right. exact Ha'.
Qed.

Lemma mapM_ok_or_err {A B : Type} (f : A -> result B) (l : list A) (e : error) :
  (forall a, In a l -> is_ok (f a) \/ f a = Err e) ->
  is_ok (mapM f l) \/ mapM f l = Err e.
Proof.
  induction l as [|a l IH]; intros Hall; [left; exact I|].
  cbn [mapM].
  destruct (Hall a (or_introl eq_refl)) as [Hok | Herr]; [|rewrite Herr; right; reflexivity].
  destruct (f a) as [b|e'] eqn:Hfa; [|contradiction]. cbn [bind].
  destruct IH as [Hok' | Herr'].
  - intros a' Ha'. apply Hall. right. exact Ha'.
  - destruct (mapM f l); [left; exact I | contradiction].
  - rewrite Herr'. right. reflexivity.
Qed.

Lemma mapM_ok_length {A B : Type} (f : A -> result B) (l : list A) :
  (forall a, In a l -> is_ok (f a)) ->
  exists bs, mapM f l = Ok bs /\ length bs = length l.
Proof.
  induction l as [|a l IH]; intros Hall; [exists []; split; reflexivity|].
  cbn [mapM]. pose proof (Hall a (or_introl eq_refl)) as Ha.
  destruct (f a) as [b|e]; [|contradiction]. cbn [bind].
  destruct IH as (bs & Hbs & Hlen); [intros a' Ha'; apply Hall; right; exact Ha'|].
  rewrite Hbs. cbn [bind]. exists (b :: bs). split; [reflexivity | cbn; congruence].
Qed.

Lemma get_out_of_range (a : list R) (i : nat) :
  (length a <= i)%nat -> get a i = Err IndexError.
Proof.
  intros H. unfold get. apply nth_error_None in H. rewrite H. reflexivity.
Qed.

(** ** Vicsek alignment with mismatched arrays *)

(** X21.  The Vicsek-like interaction returns one force per position when
    there are at least as many velocities as positions, and raises IndexError
    when there are fewer. *)
Theorem vicsek_needs_a_velocity_per_position
    (coupling noise : R) (randn : nat -> R) (positions velocities : list R) :
  ((length positions <= length velocities)%nat ->
   exists forces,
     vicsek_like_interaction coupling noise randn positions velocities = Ok forces /\
     length forces = length positions) /\
  ((length velocities < length positions)%nat ->
   vicsek_like_interaction coupling noise randn positions velocities = Err IndexError).
Proof.
  unfold vicsek_like_interaction. split; intros Hlen.
  - destruct (mapM_ok_length
                (fun i => v <- get velocities i ;;
                          Ok (if Rlt_dec 0 noise
                              then coupling * (mean velocities - v) + noise * randn i
                              else coupling * (mean velocities - v)))
                (seq 0 (length positions))) as (forces & Hf & Hl).
    + intros i Hi. apply in_seq in Hi. rewrite get_nth by lia. exact I.
    + exists forces. split; [exact Hf|]. rewrite Hl. apply length_seq.
  - apply mapM_err_uniform.
    + intros i _. destruct (Nat.lt_ge_cases i (length velocities)) as [Hi|Hi].
      * left. rewrite get_nth by exact Hi. exact I.
      * right. rewrite get_out_of_range by exact Hi. reflexivity.
    + exists (length velocities). split; [apply in_seq; lia|].
      rewrite get_out_of_range by lia. reflexivity.
Qed.

(** ** The state vector of the many-particle system *)

(** X22.  MultiParticleSystem.equations_of_motion raises a shape (broadcast)
    error for every state whose length is neither 2N nor N+1. *)
Theorem multi_equations_of_motion_rejects_bad_length
    (self : MultiParticleSystem) (time : R) (state : list R) (damping : R)
    (external_force : option (R -> R -> R -> R)) :
  length state <> (2 * n_particles self)%nat ->
  length state <> (n_particles self + 1)%nat ->
  Multi.equations_of_motion self time state damping external_force = Err ShapeError.
Proof.
  intros H2n Hn1. unfold Multi.equations_of_motion.
  assert (Hb : broadcast_to (n_particles self) (skipn (n_particles self) state)
               = Err ShapeError).
  { unfold broadcast_to.
    pose proof (length_skipn (n_particles self) state) as Hl.
    destruct (Nat.eqb_spec (length (skipn (n_particles self) state)) (n_particles self))
      as [He|_]; [lia|].
    destruct (skipn (n_particles self) state) as [|x [|y l]]; cbn in Hl; try reflexivity.
    lia. }
  rewrite Hb. reflexivity.
Qed.

Lemma multi_equations_of_motion_rejects_bad_length_witness :
  length [1; 2; 3; 4; 5] <> (2 * n_particles kuramoto_pair)%nat /\
  length [1; 2; 3; 4; 5] <> (n_particles kuramoto_pair + 1)%nat /\
  Multi.equations_of_motion kuramoto_pair 0 [1; 2; 3; 4; 5] 0 None = Err ShapeError.
Proof.
  assert (H1 : length [1; 2; 3; 4; 5] <> (2 * n_particles kuramoto_pair)%nat)
    by (cbn; lia).
  assert (H2 : length [1; 2; 3; 4; 5] <> (n_particles kuramoto_pair + 1)%nat)
    by (cbn; lia).
  split; [exact H1|]. split; [exact H2|].
  exact (multi_equations_of_motion_rejects_bad_length kuramoto_pair 0 [1; 2; 3; 4; 5] 0 None
           H1 H2).
Defined.

(** X23.  A state of length N+1 is accepted: without interaction or external
    force, the single velocity entry v is broadcast to all particles and the
    result is N copies of v followed by N copies of 0 - damping*v. *)
Theorem multi_equations_of_motion_shares_single_velocity
    (c : ParametricCurve) (time : R) (positions : list R) (v damping : R) :
  Multi.equations_of_motion (mkMultiParticleSystem c (length positions) None)
                            time (positions ++ [v]) damping None
  = Ok (repeat v (length positions) ++ repeat (0 - damping * v) (length positions)).
Proof.
  unfold Multi.equations_of_motion. cbn [n_particles interaction_function].
  set (n := length positions).
  assert (Hv : skipn n (positions ++ [v]) = [v]).
  { unfold n. rewrite skipn_app, Nat.sub_diag, skipn_all. reflexivity. }
  rewrite Hv.
  assert (Hb : forall x, broadcast_to n [x] = Ok (repeat x n)).
  { intros x. unfold broadcast_to. cbn [length].
    destruct (Nat.eqb_spec 1 n) as [<-|_]; reflexivity. }
  rewrite Hb. cbn [bind map]. unfold isub, zeros. rewrite repeat_length, Hb. cbn [bind].
  rewrite zipWith_repeat. reflexivity.
Qed.

(** ** Spatial trajectories of the many-particle system *)

Lemma get2_ok_or_index (a : list (list R)) (i j : nat) :
  is_ok (get2 a i j) \/ get2 a i j = Err IndexError.
Proof.
  unfold get2, get. destruct (nth_error a i) as [row|]; [|right; reflexivity].
  destruct (nth_error row j); [left; exact I | right; reflexivity].
Qed.

Lemma integrate_shape (solve_ivp : ivp_solver) (self : MultiParticleSystem)
    (p0 v0 : list R) (t_span : R * R) (n_points : Z) (method : ode_method)
    (damping : R) (ef : option (R -> R -> R -> R))
    (times : list R) (positions velocities : list (list R)) :
  Multi.integrate solve_ivp self p0 v0 t_span n_points method damping ef
  = Ok (times, positions, velocities) ->
  length positions = length times /\ length velocities = length times.
Proof.
  unfold Multi.integrate.
  destruct (linspace _ _ _); [|discriminate]. cbn [bind].
  destruct (solve_ivp _ _ _ _ _) as [sol|]; [|discriminate]. cbn [bind].
  destruct (sol_y sol); [discriminate|].
  intros H. injection H as <- <- <-.
  unfold transpose. rewrite !length_map, !length_seq. split; reflexivity.
Qed.

(** X24.  When integrate returns fewer samples than n_points (a run the solver
    abandoned) and there is at least one particle,
    MultiParticleSystem.spatial_trajectories raises IndexError instead of
    returning trajectories. *)
Theorem spatial_trajectories_index_error_on_short_run
    (solve_ivp : ivp_solver) (self : MultiParticleSystem)
    (initial_positions initial_velocities : list R) (t_span : R * R) (n_points : Z)
    (damping : R) (external_force : option (R -> R -> R -> R))
    (times : list R) (positions velocities : list (list R)) :
  Multi.integrate solve_ivp self initial_positions initial_velocities t_span n_points RK45
                  damping external_force = Ok (times, positions, velocities) ->
  (length times < Z.to_nat n_points)%nat ->
  (1 <= n_particles self)%nat ->
  Multi.spatial_trajectories solve_ivp self initial_positions initial_velocities t_span
                             n_points damping external_force = Err IndexError.
Proof.
  intros Hint Hshort HN.
  destruct (integrate_shape _ _ _ _ _ _ _ _ _ _ _ _ Hint) as (Hlp & _).
  unfold Multi.spatial_trajectories. rewrite Hint. cbn [bind].
  set (inner := fun i : nat =>
                  mapM (fun j => p <- get2 positions i j ;; Ok (gamma (mp_curve self) p))
                       (seq 0 (n_particles self))).
  assert (Hcell : forall i j,
             is_ok (p <- get2 positions i j ;; Ok (gamma (mp_curve self) p)) \/
             (p <- get2 positions i j ;; Ok (gamma (mp_curve self) p)) = Err IndexError).
  { intros i j. destruct (get2_ok_or_index positions i j) as [H|H].
    - left. destruct (get2 positions i j); [exact I | contradiction].
    - right. rewrite H. reflexivity. }
  assert (Houter : mapM inner (seq 0 (Z.to_nat n_points)) = Err IndexError).
  { apply mapM_err_uniform.
    - intros i _. apply mapM_ok_or_err. intros j _. apply Hcell.
    - exists (length times). split; [apply in_seq; lia|].
      apply mapM_err_uniform; [intros j _; apply Hcell|].
      exists 0%nat. split; [apply in_seq; lia|].
      unfold get2.
      assert (Hnone : nth_error positions (length times) = None)
        by (apply nth_error_None; lia).
      rewrite Hnone. reflexivity. }
  fold inner. rewrite Houter. reflexivity.
Qed.

Lemma stalled_gas_run :
  Multi.integrate stalling_solver free_gas [0; 3] [1; 2] (0, 2) 2 RK45 0 (Some runaway_force)
  = Ok ([0], [[0; 3]], [[1; 2]]).
Proof.
  unfold Multi.integrate. cbn [fst snd]. rewrite linspace_0_2_2. reflexivity.
Qed.

Lemma spatial_trajectories_index_error_on_short_run_witness :
  Multi.integrate stalling_solver free_gas [0; 3] [1; 2] (0, 2) 2 RK45 0 (Some runaway_force)
  = Ok ([0], [[0; 3]], [[1; 2]]) /\
  (length [0] < Z.to_nat 2)%nat /\
  (1 <= n_particles free_gas)%nat /\
  Multi.spatial_trajectories stalling_solver free_gas [0; 3] [1; 2] (0, 2) 2 0
                             (Some runaway_force) = Err IndexError.
Proof.
  assert (H1 : (length [0] < Z.to_nat 2)%nat) by (cbn; lia).
  assert (H2 : (1 <= n_particles free_gas)%nat) by (cbn; lia).
  split; [exact stalled_gas_run|]. split; [exact H1|]. split; [exact H2|].
  exact (spatial_trajectories_index_error_on_short_run stalling_solver
           free_gas [0; 3] [1; 2] (0, 2) 2%Z 0 (Some runaway_force)
           [0] [[0; 3]] [[1; 2]] stalled_gas_run H1 H2).
Defined.

Lemma vicsek_needs_a_velocity_per_position_witness :
  (length [0; 0] <= length [1; 2; 3])%nat /\
  (exists forces,
      vicsek_like_interaction 1 0 (fun _ => 0) [0; 0] [1; 2; 3] = Ok forces /\
      length forces = length [0; 0]) /\
  (length [1] < length [0; 0])%nat /\
  vicsek_like_interaction 1 0 (fun _ => 0) [0; 0] [1] = Err IndexError.
Proof.
  assert (H1 : (length [0; 0] <= length [1; 2; 3])%nat) by (cbn; lia).
  assert (H2 : (length [1] < length [0; 0])%nat) by (cbn; lia).
  split; [exact H1|]. split.
  - exact (proj1 (vicsek_needs_a_velocity_per_position 1 0 (fun _ => 0) [0; 0] [1; 2; 3]) H1).
  - split; [exact H2|].
    exact (proj2 (vicsek_needs_a_velocity_per_position 1 0 (fun _ => 0) [0; 0] [1]) H2).
Defined.

(** ** Spatial trajectories of a complete run *)

(** X25.  When integrate returns n_points samples with one position per
    particle in each, spatial_trajectories returns the same times and every
    integrated position mapped through the curve. *)
Theorem spatial_trajectories_maps_positions_through_curve
    (solve_ivp : ivp_solver) (self : MultiParticleSystem)
    (initial_positions initial_velocities : list R) (t_span : R * R) (n_points : Z)
    (damping : R) (external_force : option (R -> R -> R -> R))
    (times : list R) (positions velocities : list (list R)) :
  Multi.integrate solve_ivp self initial_positions initial_velocities t_span n_points RK45
                  damping external_force = Ok (times, positions, velocities) ->
  length times = Z.to_nat n_points ->
  (forall row, In row positions -> length row = n_particles self) ->
  Multi.spatial_trajectories solve_ivp self initial_positions initial_velocities t_span
                             n_points damping external_force
  = Ok (times, map (map (gamma (mp_curve self))) positions).
Proof.
  intros Hint Hfull Hrows.
  destruct (integrate_shape _ _ _ _ _ _ _ _ _ _ _ _ Hint) as (Hlp & _).
  unfold Multi.spatial_trajectories. rewrite Hint. cbn [bind].
  rewrite <- Hfull, <- Hlp.
  rewrite (mapM_ext _ (fun i => Ok (map (gamma (mp_curve self)) (nth i positions [])))).
  - rewrite mapM_pure. cbn [bind]. f_equal. f_equal. symmetry.
    apply (list_eq_map_seq _ _ _ []); [apply length_map|].
    intros i Hi. change [] with (map (gamma (mp_curve self)) []) at 1.
    apply map_nth.
  - intros i Hi. apply in_seq in Hi.
    assert (Hrow : length (nth i positions []) = n_particles self).
    { apply Hrows. apply nth_In. lia. }
    rewrite (mapM_ext _ (fun j => Ok (gamma (mp_curve self)
                                         (nth j (nth i positions []) 0)))).
    + rewrite mapM_pure. f_equal. rewrite <- Hrow. symmetry.
      apply (list_eq_map_seq _ _ _ (gamma (mp_curve self) 0)); [apply length_map|].
      intros j Hj. apply map_nth.
    + intros j Hj. apply in_seq in Hj. unfold get2.
      rewrite (nth_error_nth' positions [] (proj2 Hi : (i < length positions)%nat)).
      rewrite get_nth by lia. reflexivity.
Qed.

Lemma one_sample_gas_run :
  Multi.integrate stalling_solver free_gas [0; 3] [1; 2] (0, 2) 1 RK45 0 (Some runaway_force)
  = Ok ([INR 0 * (2 - 0) + 0], [[0; 3]], [[1; 2]]).
Proof. reflexivity. Qed.

Lemma spatial_trajectories_maps_positions_through_curve_witness :
  Multi.integrate stalling_solver free_gas [0; 3] [1; 2] (0, 2) 1 RK45 0 (Some runaway_force)
  = Ok ([INR 0 * (2 - 0) + 0], [[0; 3]], [[1; 2]]) /\
  length [INR 0 * (2 - 0) + 0] = Z.to_nat 1 /\
  Multi.spatial_trajectories stalling_solver free_gas [0; 3] [1; 2] (0, 2) 1 0
                             (Some runaway_force)
  = Ok ([INR 0 * (2 - 0) + 0], map (map (gamma (helix 1 1))) [[0; 3]]).
Proof.
  split; [exact one_sample_gas_run|]. split; [reflexivity|].
  apply (spatial_trajectories_maps_positions_through_curve stalling_solver
           free_gas [0; 3] [1; 2] (0, 2) 1%Z 0 (Some runaway_force)
           [INR 0 * (2 - 0) + 0] [[0; 3]] [[1; 2]] one_sample_gas_run eq_refl).
  intros row [<- | []]. reflexivity.
Defined.

(** ** Arc length is nonnegative on an increasing interval *)

Lemma grid_nondecreasing (f : nat -> R) (b : R) (m s : nat) (lo : R) :
  (forall i, f i <= f (S i)) ->
  (forall i, (s <= i < s + m)%nat -> f i <= b) ->
  lo <= b -> (m <> 0%nat -> lo <= f s) ->
  Forall (fun d => 0 <= d) (diff (lo :: set_last (map f (seq s m)) b)).
Proof.
  intros Hmono. revert s lo. induction m as [|m IH]; intros s lo Hb Hlo Hfs.
  - cbn. constructor.
  - destruct m as [|m].
    + cbn. constructor; [lra | constructor].
    + change (seq s (S (S m))) with (s :: seq (S s) (S m)).
      cbn [map]. destruct (map f (seq (S s) (S m))) as [|y l] eqn:E; [discriminate|].
      change (set_last (f s :: y :: l) b) with (f s :: set_last (y :: l) b).
      change (diff (lo :: f s :: set_last (y :: l) b))
        with ((f s - lo) :: diff (f s :: set_last (y :: l) b)).
      constructor.
      * assert (lo <= f s) by (apply Hfs; discriminate). lra.
      * rewrite <- E. apply IH.
        -- intros i Hi. apply Hb. lia.
        -- apply Hb. lia.
        -- intros _. apply Hmono.
Qed.

Lemma linspace_two_or_more (a b : R) (n : Z) (m : nat) :
  Z.to_nat n = S (S m) ->
  linspace a b n
  = Ok (set_last (map (fun i => INR i * ((b - a) / INR (S m)) + a) (seq 0 (S (S m)))) b).
Proof.
  intros Hm. unfold linspace.
  destruct (Z.ltb_spec n 0) as [Hneg|_]; [lia|].
  rewrite Hm. reflexivity.
Qed.

Lemma linspace_nondecreasing (a b : R) (n : Z) (l : list R) :
  a <= b -> linspace a b n = Ok l -> Forall (fun d => 0 <= d) (diff l).
Proof.
  intros Hab. destruct (Z.to_nat n) as [|[|m]] eqn:Hn.
  - unfold linspace. destruct (Z.ltb_spec n 0) as [|_]; [discriminate|].
    rewrite Hn. intros H. injection H as <-. constructor.
  - unfold linspace. destruct (Z.ltb_spec n 0) as [|_]; [discriminate|].
    rewrite Hn. intros H. injection H as <-. constructor.
  - rewrite (linspace_two_or_more a b n m Hn).
    set (step := (b - a) / INR (S m)).
    set (f := fun i : nat => INR i * step + a).
    intros H.
    assert (Hl : l = set_last (map f (seq 0 (S (S m)))) b) by congruence.
    rewrite Hl. clear H Hl.
    assert (Hm : 0 < INR (S m)) by (apply lt_0_INR; lia).
    assert (Hstep : 0 <= step).
    { unfold step. apply Rmult_le_pos; [lra|]. apply Rlt_le, Rinv_0_lt_compat. exact Hm. }
    assert (Hfull : INR (S m) * step = b - a) by (unfold step; field; lra).
    assert (Hf0 : f 0%nat = a) by (unfold f; cbn [INR]; ring).
    replace (set_last (map f (seq 0 (S (S m)))) b)
      with (f 0%nat :: set_last (map f (seq 1 (S m))) b).
    + apply grid_nondecreasing.
      * intros i. unfold f. rewrite S_INR. nra.
      * intros i Hi. unfold f.
        assert (Hle : INR i <= INR (S m)) by (apply le_INR; lia). nra.
      * rewrite Hf0. exact Hab.
      * intros _. rewrite Hf0. unfold f. rewrite S_INR. cbn [INR]. nra.
    + change (seq 0 (S (S m))) with (0%nat :: 1%nat :: seq 2 m).
      change (seq 1 (S m)) with (1%nat :: seq 2 m). reflexivity.
Qed.

Lemma trapz_nonneg (y x : list R) :
  Forall (fun d => 0 <= d) (diff x) -> Forall (fun v => 0 <= v) y -> 0 <= trapz y x.
Proof.
  intros Hx Hy. unfold trapz.
  assert (Hp : Forall (fun v => 0 <= v) (pairsum y)).
  { clear Hx. induction y as [|a y IH]; [constructor|].
    destruct y as [|b y]; [constructor|].
    inversion Hy as [|? ? Ha Hy']; subst. inversion Hy' as [|? ? Hb _]; subst.
    change (pairsum (a :: b :: y)) with ((b + a) :: pairsum (b :: y)).
    constructor; [lra | apply IH; exact Hy']. }
  revert Hp. generalize (pairsum y) as ps. induction Hx as [|d ds Hd _ IH]; intros ps Hp.
  - cbn. lra.
  - destruct ps as [|q ps]; [cbn; lra|].
    inversion Hp as [|? ? Hq Hps]; subst.
    cbn [zipWith]. rewrite rsum_cons. specialize (IH ps Hps). nra.
Qed.

(** X26.  For t0 <= t1 and a nonnegative sample count, arc_length(t0, t1, n)
    returns a nonnegative number on every curve. *)
Theorem arc_length_nonnegative (c : ParametricCurve) (t0 t1 : R) (n : Z) :
  t0 <= t1 -> (0 <= n)%Z ->
  exists s, Curve.arc_length c t0 t1 n = Ok s /\ 0 <= s.
Proof.
  intros Ht Hn. unfold Curve.arc_length.
  destruct (linspace_nonneg t0 t1 n Hn) as (l & Hl). rewrite Hl. cbn [bind].
  rewrite mapM_speed. cbn [bind]. eexists. split; [reflexivity|].
  apply trapz_nonneg.
  - eapply linspace_nondecreasing; eassumption.
  - apply Forall_forall. intros v Hv. apply in_map_iff in Hv.
    destruct Hv as (t & <- & _). apply norm_nonneg.
Qed.

Lemma arc_length_nonnegative_witness :
  0 <= 1 /\ (0 <= 10)%Z /\
  exists s, Curve.arc_length (viviani_curve 1) 0 1 10 = Ok s /\ 0 <= s.
Proof.
  split; [lra|]. split; [lia|].
  apply (arc_length_nonnegative (viviani_curve 1) 0 1 10); [lra | lia].
Defined.
